(** * Rectangle benchmark: the deterministic generator and the bouncing-box
      simulation of [tools/benchmark_rectangles/main.py]

    The Python program works on unbounded integers and on [float], which is
    IEEE 754 binary64 with round-to-nearest-even.  Integers are [Z]; floats
    are [spec_float] with the operations of [SpecFloat] at precision 53 and
    maximal exponent 1024, so every rounding the program performs is part
    of the model.  Objects mutated in place ([SimpleRNG.state], the fields
    of a [Rectangle]) are threaded through the calls as values. *)

From Stdlib Require Import ZArith List Bool Lia QArith.
From Stdlib Require Import SpecFloat.
Import ListNotations.
Local Open Scope Z_scope.

(** ** Python floats *)

Module F64.

Definition prec : Z := 53.
Definition emax : Z := 1024.

Definition float : Type := spec_float.

Definition add : float -> float -> float := SFadd prec emax.
Definition sub : float -> float -> float := SFsub prec emax.
Definition mul : float -> float -> float := SFmul prec emax.
Definition div : float -> float -> float := SFdiv prec emax.
Definition neg : float -> float := SFopp.
Definition abs : float -> float := SFabs.

(** [float(n)] for an integer [n]: the nearest binary64 value, ties to
    even.  The literals [2.0], [5.0], [10.0], [20.0] and [60.0] of the
    program are the floats of these integers.  Python raises
    [OverflowError] when [n] is too large for a finite binary64 value;
    here the conversion yields an infinity. *)
Definition of_int (n : Z) : float := binary_normalize prec emax n 0 false.

(** [a / b] on two integers.  Python returns the correctly rounded
    quotient; for operands below [2^53], which convert exactly, that is the
    binary64 division of the converted operands.  The program divides a
    value below [2^32] by [2^32]. *)
Definition truediv (a b : Z) : float := div (of_int a) (of_int b).

(** A float against an integer: Python compares the exact values, and
    every comparison with a NaN is false. *)
Definition compare_int (x : float) (n : Z) : option comparison :=
  match x with
  | S754_nan => None
  | S754_infinity s => Some (if s then Lt else Gt)
  | S754_zero _ => Some (0 ?= n)
  | S754_finite s m e =>
      let v := cond_Zopp s (Zpos m) in
      Some match e with
           | Zneg p => v ?= n * 2 ^ Zpos p
           | _ => v * 2 ^ e ?= n
           end
  end.

Definition lt_int (x : float) (n : Z) : bool :=
  match compare_int x n with Some Lt => true | _ => false end.
Definition gt_int (x : float) (n : Z) : bool :=
  match compare_int x n with Some Gt => true | _ => false end.
Definition le_int (x : float) (n : Z) : bool :=
  match compare_int x n with Some (Lt | Eq) => true | _ => false end.
Definition ge_int (x : float) (n : Z) : bool :=
  match compare_int x n with Some (Gt | Eq) => true | _ => false end.
Definition eq_int (x : float) (n : Z) : bool :=
  match compare_int x n with Some Eq => true | _ => false end.


Definition is_nan (x : float) : bool :=
  match x with S754_nan => true | _ => false end.

(** Finite values, the two zeros included. *)
Definition is_finite (x : float) : bool :=
  match x with S754_zero _ | S754_finite _ _ _ => true | _ => false end.

(** The exact value of a finite float, as a rational. *)
Definition to_Q (x : float) : option Q :=
  match x with
  | S754_zero _ => Some 0%Q
  | S754_finite s m e =>
      let v := cond_Zopp s (Zpos m) in
      Some match e with
           | Zneg p => Qmake v (2 ^ p)
           | _ => inject_Z (v * 2 ^ e)
           end
  | _ => None
  end.

(** *** Vocabulary of the arithmetic lemmas *)

(** The float nearest to [m * 2^e]; it is [m * 2^e] itself when [m] fits
    the mantissa ([mant_ok]) and [e] is far from the exponent limits
    ([exp_ok]). *)
Definition dyadic (m e : Z) : float := binary_normalize prec emax m e false.

Definition mant_ok (m : Z) : Prop := Z.abs m < 2 ^ 53.
Definition exp_ok (e : Z) : Prop := -1000 <= e <= 900.

(** [p * 2^n] on positive mantissas, for [0 <= n]. *)
Definition shlZ (p : positive) (n : Z) : positive :=
  match n with Zpos d => Pos.iter xO p d | _ => p end.

(** Bits missing from [p] to fill a 53-bit mantissa. *)
Definition slack (p : positive) : Z := 53 - Zpos (digits2_pos p).

(** A shift record with nothing shifted out yet. *)
Definition exact_rec (m : Z) : shr_record := Build_shr_record m false false.

(** Sign, mantissa and exponent of [dyadic m e] when it is exact. *)
Inductive dyadic_view (m e : Z) : float -> Prop :=
| view_zero : m = 0 -> dyadic_view m e (S754_zero false)
| view_finite (s : bool) (M : positive) (E : Z) :
    m <> 0 -> E <= e -> cond_Zopp s (Zpos M) = m * 2 ^ (e - E) ->
    Zpos (digits2_pos M) = 53 -> s = (m <? 0) -> -1074 <= E <= 971 ->
    dyadic_view m e (S754_finite s M E).

End F64.

(** ** [class SimpleRNG] *)

Module SimpleRNG.

Record t : Type := mk { state : Z }.

(** [__init__]: [self.state = seed & 0xFFFFFFFF]. *)
Definition init (seed : Z) : t := mk (Z.land seed 0xFFFFFFFF).

(** [next]: the state becomes [(a * state + c) % m] and is returned. *)
Definition next (r : t) : Z * t :=
  let a := 1664525 in
  let c := 1013904223 in
  let m := Z.shiftl 1 32 in
  let s := (a * state r + c) mod m in
  (s, mk s).

(** [random]: [self.next() / (1 << 32)]. *)
Definition random (r : t) : F64.float * t :=
  let '(n, r') := next r in
  (F64.truediv n (Z.shiftl 1 32), r').

(** The results of the first [k] calls of [next]. *)
Fixpoint outputs (k : nat) (r : t) : list Z :=
  match k with
  | O => []
  | S k' => let '(n, r') := next r in n :: outputs k' r'
  end.

(** The generator after [k] calls of [next]. *)
Fixpoint after (k : nat) (r : t) : t :=
  match k with
  | O => r
  | S k' => after k' (snd (next r))
  end.

End SimpleRNG.

(** ** [class Rectangle] *)

Module Rectangle.

Record t : Type := mk {
  id : Z;
  x : F64.float;
  y : F64.float;
  width : F64.float;
  height : F64.float;
  vx : F64.float;
  vy : F64.float
}.

End Rectangle.

(** ** [class Simulation] *)

Module Simulation.

Record t : Type := mk {
  width : Z;
  height : Z;
  rectangles : list Rectangle.t
}.

(** One turn of the loop of [__init__]: six draws from the generator, in
    the order the keyword arguments are written. *)
Definition new_rectangle (width height : Z) (i : Z) (rng : SimpleRNG.t)
  : Rectangle.t * SimpleRNG.t :=
  let '(r1, rng) := SimpleRNG.random rng in
  let '(r2, rng) := SimpleRNG.random rng in
  let '(r3, rng) := SimpleRNG.random rng in
  let '(r4, rng) := SimpleRNG.random rng in
  let '(r5, rng) := SimpleRNG.random rng in
  let '(r6, rng) := SimpleRNG.random rng in
  (Rectangle.mk (i + 1)
     (F64.mul r1 (F64.of_int width))
     (F64.mul r2 (F64.of_int height))
     (F64.add (F64.of_int 20) (F64.mul r3 (F64.of_int 60)))
     (F64.add (F64.of_int 20) (F64.mul r4 (F64.of_int 60)))
     (F64.add (F64.neg (F64.of_int 5)) (F64.mul r5 (F64.of_int 10)))
     (F64.add (F64.neg (F64.of_int 5)) (F64.mul r6 (F64.of_int 10))),
   rng).

(** [for i in range(num_rectangles)]: [k] turns left, the next index is
    [i], [rects] is the list built so far. *)
Fixpoint init_loop (width height : Z) (k : nat) (i : Z) (rng : SimpleRNG.t)
    (rects : list Rectangle.t) : list Rectangle.t :=
  match k with
  | O => rects
  | S k' =>
      let '(rect, rng') := new_rectangle width height i rng in
      init_loop width height k' (i + 1) rng' (rects ++ [rect])
  end.

(** [__init__]; [range] of a negative count is empty. *)
Definition init (width height num_rectangles seed : Z) : t :=
  mk width height
     (init_loop width height (Z.to_nat num_rectangles) 0
        (SimpleRNG.init seed) []).

(** The body of the loop of [update] on one rectangle. *)
Definition update_rect (sim_width sim_height : Z) (rect : Rectangle.t)
  : Rectangle.t :=
  let x := F64.add (Rectangle.x rect) (Rectangle.vx rect) in
  let y := F64.add (Rectangle.y rect) (Rectangle.vy rect) in
  let half_w := F64.div (Rectangle.width rect) (F64.of_int 2) in
  let '(x, vx) :=
    if F64.lt_int (F64.sub x half_w) 0
    then (half_w, F64.neg (Rectangle.vx rect))
    else if F64.gt_int (F64.add x half_w) sim_width
         then (F64.sub (F64.of_int sim_width) half_w,
               F64.neg (Rectangle.vx rect))
         else (x, Rectangle.vx rect) in
  let half_h := F64.div (Rectangle.height rect) (F64.of_int 2) in
  let '(y, vy) :=
    if F64.lt_int (F64.sub y half_h) 0
    then (half_h, F64.neg (Rectangle.vy rect))
    else if F64.gt_int (F64.add y half_h) sim_height
         then (F64.sub (F64.of_int sim_height) half_h,
               F64.neg (Rectangle.vy rect))
         else (y, Rectangle.vy rect) in
  Rectangle.mk (Rectangle.id rect) x y
    (Rectangle.width rect) (Rectangle.height rect) vx vy.

(** [update]: every rectangle of the list is changed in place, in list
    order.  The rectangles are distinct objects, so the loop is a map. *)
Definition update (s : t) : t :=
  mk (width s) (height s)
     (map (update_rect (width s) (height s)) (rectangles s)).

(** [k] calls of [update]. *)
Fixpoint updates (k : nat) (s : t) : t :=
  match k with
  | O => s
  | S k' => updates k' (update s)
  end.

(** One box of [get_bounding_boxes]:
    [[[x_min, y_min], [x_max, y_max]]]. *)
Definition bounding_box (rect : Rectangle.t)
  : (F64.float * F64.float) * (F64.float * F64.float) :=
  let half_w := F64.div (Rectangle.width rect) (F64.of_int 2) in
  let half_h := F64.div (Rectangle.height rect) (F64.of_int 2) in
  let x_min := F64.sub (Rectangle.x rect) half_w in
  let y_min := F64.sub (Rectangle.y rect) half_h in
  let x_max := F64.add (Rectangle.x rect) half_w in
  let y_max := F64.add (Rectangle.y rect) half_h in
  ((x_min, y_min), (x_max, y_max)).

Definition get_bounding_boxes (s : t)
  : list ((F64.float * F64.float) * (F64.float * F64.float)) :=
  map bounding_box (rectangles s).

Definition get_ground_truth_ids (s : t) : list Z :=
  map Rectangle.id (rectangles s).

(** *** Vocabulary of the statements *)

(** The containment test of the specification, on the edges the program
    computes: [x - width/2 >= 0], [x + width/2 <= sim_width] and the same
    on the other axis. *)
Definition contained (sim_width sim_height : Z) (rect : Rectangle.t) : bool :=
  let '((x_min, y_min), (x_max, y_max)) := bounding_box rect in
  F64.ge_int x_min 0 && F64.le_int x_max sim_width
  && F64.ge_int y_min 0 && F64.le_int y_max sim_height.

(** One axis of [update_rect]: the moved centre [p], the half extent, the
    velocity [v] and the bound give the new centre and velocity. *)
Definition bounce (p half v : F64.float) (bound : Z) : F64.float * F64.float :=
  if F64.lt_int (F64.sub p half) 0 then (half, F64.neg v)
  else if F64.gt_int (F64.add p half) bound
       then (F64.sub (F64.of_int bound) half, F64.neg v)
       else (p, v).

(** A wall is crossed on an axis in this step: one of the two tests of
    [update_rect] holds. *)
Definition hits_wall (p half : F64.float) (bound : Z) : bool :=
  F64.lt_int (F64.sub p half) 0 || F64.gt_int (F64.add p half) bound.

Definition hits_side (sim_width : Z) (rect : Rectangle.t) : bool :=
  hits_wall (F64.add (Rectangle.x rect) (Rectangle.vx rect))
            (F64.div (Rectangle.width rect) (F64.of_int 2)) sim_width.

Definition hits_top_bottom (sim_height : Z) (rect : Rectangle.t) : bool :=
  hits_wall (F64.add (Rectangle.y rect) (Rectangle.vy rect))
            (F64.div (Rectangle.height rect) (F64.of_int 2)) sim_height.

(** The [j]-th result of [random()] on [SimpleRNG(seed)], counted from 0. *)
Definition draw (seed : Z) (j : nat) : F64.float :=
  fst (SimpleRNG.random (SimpleRNG.after j (SimpleRNG.init seed))).

(** The rectangle the specification describes at index [i], counted from
    0: identifier [i + 1] and the six fields from the draws [6 i] to
    [6 i + 5] of the one stream, in the order x, y, width, height, vx,
    vy. *)
Definition spec_rectangle (width height seed : Z) (i : nat) : Rectangle.t :=
  Rectangle.mk (Z.of_nat i + 1)
    (F64.mul (draw seed (6 * i)) (F64.of_int width))
    (F64.mul (draw seed (6 * i + 1)) (F64.of_int height))
    (F64.add (F64.of_int 20) (F64.mul (draw seed (6 * i + 2)) (F64.of_int 60)))
    (F64.add (F64.of_int 20) (F64.mul (draw seed (6 * i + 3)) (F64.of_int 60)))
    (F64.add (F64.neg (F64.of_int 5))
       (F64.mul (draw seed (6 * i + 4)) (F64.of_int 10)))
    (F64.add (F64.neg (F64.of_int 5))
       (F64.mul (draw seed (6 * i + 5)) (F64.of_int 10))).

(** What the containment proof carries along one axis: the centre is a
    number, the velocity is finite, and the extent is a positive multiple of
    [2^-30] that fits between the walls. *)
Definition good_axis (bound : Z) (p v size : F64.float) : Prop :=
  F64.is_nan p = false /\ F64.is_finite v = true /\
  exists M, 0 < M <= bound * 2 ^ 30 /\ size = F64.dyadic M (-30).

Definition good_rect (sim_width sim_height : Z) (rect : Rectangle.t) : Prop :=
  good_axis sim_width (Rectangle.x rect) (Rectangle.vx rect) (Rectangle.width rect)
  /\ good_axis sim_height (Rectangle.y rect) (Rectangle.vy rect) (Rectangle.height rect).

End Simulation.

(** ** Sample states *)



Definition first_box : Rectangle.t :=
  Rectangle.mk 1 (F64.of_int 50) (F64.of_int 50) (F64.of_int 20) (F64.of_int 20)
    (F64.of_int 3) (F64.neg (F64.of_int 2)).

Definition second_box : Rectangle.t :=
  Rectangle.mk 2 (F64.of_int 95) (F64.of_int 8) (F64.of_int 20) (F64.of_int 20)
    (F64.of_int 3) (F64.neg (F64.of_int 2)).

Definition two_boxes : Simulation.t :=
  Simulation.mk 100 100 [first_box; second_box].

(** ** Vocabulary of the further properties *)

(** The state from which [next] returns [n]: the multiplier 1664525 has
    the inverse 4276115653 modulo [2^32]. *)
Definition lcg_prev (n : Z) : Z := (4276115653 * (n - 1013904223)) mod 2 ^ 32.

(** [1 + a + ... + a^(k-1)] for the multiplier [a] of [next]. *)
Fixpoint geom (k : nat) : Z :=
  match k with
  | O => 0
  | S k' => geom k' + 1664525 ^ Z.of_nat k'
  end.

(** The ranges the comments of [__init__] give: the centre inside the
    bounds, [20 <= width, height < 80] and [-5 <= vx, vy < 5]. *)
Definition drawn_in_range (W H : Z) (rect : Rectangle.t) : bool :=
  F64.ge_int (Rectangle.x rect) 0 && F64.lt_int (Rectangle.x rect) W
  && F64.ge_int (Rectangle.y rect) 0 && F64.lt_int (Rectangle.y rect) H
  && F64.ge_int (Rectangle.width rect) 20 && F64.lt_int (Rectangle.width rect) 80
  && F64.ge_int (Rectangle.height rect) 20 && F64.lt_int (Rectangle.height rect) 80
  && F64.ge_int (Rectangle.vx rect) (-5) && F64.lt_int (Rectangle.vx rect) 5
  && F64.ge_int (Rectangle.vy rect) (-5) && F64.lt_int (Rectangle.vy rect) 5.

Definition size_ok (w : F64.float) : bool :=
  F64.ge_int w 20 && F64.lt_int w 80.

Definition speed_ok (v : F64.float) : bool :=
  F64.ge_int v (-5) && F64.le_int v 5.

Definition sizes_and_speeds_ok (rect : Rectangle.t) : bool :=
  size_ok (Rectangle.width rect) && size_ok (Rectangle.height rect)
  && speed_ok (Rectangle.vx rect) && speed_ok (Rectangle.vy rect).

(** ** [run_benchmark] *)

(** The tracker, the clock and [print] are outside the program; what the
    simulation hands to the tracker, and the arithmetic on the measured
    totals, are not. *)

Module Benchmark.

Definition box : Type := (F64.float * F64.float) * (F64.float * F64.float).

(** A loop of [k] frames: [sim.update()], then [sim.get_bounding_boxes()],
    whose boxes become the detections of [tracker.update], one
    [Detection] a box, in order.  The result is the list of the box lists,
    frame by frame, and the simulation as the loop leaves it. *)
Fixpoint run_frames (k : nat) (sim : Simulation.t)
  : list (list box) * Simulation.t :=
  match k with
  | O => ([], sim)
  | S k' =>
      let sim := Simulation.update sim in
      let boxes := Simulation.get_bounding_boxes sim in
      let '(rest, sim) := run_frames k' sim in
      (boxes :: rest, sim)
  end.

(** [run_benchmark]: [Simulation(1920, 1080, num_objects, 42)], ten
    warm-up frames, then [range(num_frames)] measured frames.  The result
    is what the tracker is fed in the two loops. *)
Definition run_benchmark (num_objects num_frames : Z)
  : list (list box) * list (list box) :=
  let sim := Simulation.init 1920 1080 num_objects 42 in
  let '(warmup, sim) := run_frames 10 sim in
  let '(measured, sim) := run_frames (Z.to_nat num_frames) sim in
  (warmup, measured).

(** A box inside the frame [[0, W] x [0, H]]. *)
Definition inside (W H : Z) (b : box) : bool :=
  let '((x_min, y_min), (x_max, y_max)) := b in
  F64.ge_int x_min 0 && F64.le_int x_max W
  && F64.ge_int y_min 0 && F64.le_int y_max H.

(** [x == 0.0], for either zero. *)
Definition is_zero (x : F64.float) : bool :=
  match x with S754_zero _ => true | _ => false end.

(** [a / b] on integers; [None] is [ZeroDivisionError]. *)
Definition int_truediv (a b : Z) : option F64.float :=
  if b =? 0 then None else Some (F64.truediv a b).

(** [a / x], an integer by a float. *)
Definition int_div_float (a : Z) (x : F64.float) : option F64.float :=
  if is_zero x then None else Some (F64.div (F64.of_int a) x).

(** [x / b], a float by an integer. *)
Definition float_div_int (x : F64.float) (b : Z) : option F64.float :=
  if b =? 0 then None else Some (F64.div x (F64.of_int b)).

(** The metrics at the end of [run_benchmark], from the frame count and
    the nanoseconds summed in [total_time_bench]:
    [fps = num_frames / (total_time_bench / 1_000_000_000)] and
    [avg_time_ms = (total_time_bench / num_frames) / 1_000_000].  Both
    integers are taken below [2^53], where they convert exactly. *)
Definition metrics (num_frames total_time_bench : Z)
  : option (F64.float * F64.float) :=
  match int_truediv total_time_bench 1000000000 with
  | None => None
  | Some seconds =>
      match int_div_float num_frames seconds with
      | None => None
      | Some fps =>
          match int_truediv total_time_bench num_frames with
          | None => None
          | Some per_frame =>
              match float_div_int per_frame 1000000 with
              | None => None
              | Some avg_time_ms => Some (fps, avg_time_ms)
              end
          end
      end
  end.

End Benchmark.

(** * Binary64 arithmetic *)

Module F64Facts.

Import F64.

(** ** Digits and shifts *)

(** A mantissa of [d] binary digits lies in [[2^(d-1), 2^d)]. *)
Lemma digits2_pos_bounds (p : positive) :
  2 ^ (Zpos (digits2_pos p) - 1) <= Zpos p < 2 ^ Zpos (digits2_pos p).
Proof.
  induction p as [p IH | p IH | ]; cbn [digits2_pos].
  - rewrite Pos2Z.inj_succ, Z.pow_succ_r by lia.
    replace (Z.succ (Zpos (digits2_pos p)) - 1) with (Z.succ (Zpos (digits2_pos p) - 1)) by lia.
    rewrite Z.pow_succ_r by lia. lia.
  - rewrite Pos2Z.inj_succ, Z.pow_succ_r by lia.
    replace (Z.succ (Zpos (digits2_pos p)) - 1) with (Z.succ (Zpos (digits2_pos p) - 1)) by lia.
    rewrite Z.pow_succ_r by lia. lia.
  - cbn. lia.
Qed.

Lemma iter_xO_spec (p d : positive) :
  Zpos (Pos.iter xO p d) = Zpos p * 2 ^ Zpos d.
Proof.
  induction d as [ | d IH] using Pos.peano_ind.
  - cbn. lia.
  - rewrite Pos.iter_succ, Pos2Z.inj_succ, Z.pow_succ_r by lia.
    rewrite Pos2Z.inj_xO, IH. lia.
Qed.

Lemma iter_xO_digits (p d : positive) :
  digits2_pos (Pos.iter xO p d) = (digits2_pos p + d)%positive.
Proof.
  induction d as [ | d IH] using Pos.peano_ind.
  - cbn. lia.
  - rewrite Pos.iter_succ. cbn [digits2_pos]. rewrite IH. lia.
Qed.

(** [SpecFloat]'s iterator is [Pos.iter]. *)
Lemma iter_pos_eq {A} (f : A -> A) (n : positive) (a : A) :
  iter_pos f n a = Pos.iter f a n.
Proof.
  revert a. induction n as [n IH | n IH | ]; intros a; cbn [iter_pos Pos.iter].
  - rewrite !IH. rewrite <- Pos.iter_swap. rewrite <- Pos.iter_swap. reflexivity.
  - rewrite !IH. reflexivity.
  - reflexivity.
Qed.

(** ** Rounding *)

(** A canonical mantissa is returned as it is. *)
Lemma round_aux_bounded (s : bool) (m : positive) (e : Z) :
  bounded prec emax m e = true ->
  binary_round_aux prec emax s (Zpos m) e loc_Exact = S754_finite s m e.
Proof.
  unfold bounded, canonical_mantissa. intros H.
  apply andb_prop in H. destruct H as [Hc He].
  apply Z.eqb_eq in Hc.
  unfold binary_round_aux, shr_fexp. cbn [Zdigits2 shr_record_of_loc].
  rewrite Hc, Z.sub_diag. cbn [shr shr_m loc_of_shr_record round_nearest_even Zdigits2].
  rewrite Hc, Z.sub_diag. cbn [shr shr_m]. rewrite He. reflexivity.
Qed.

Lemma shr_1_double (p : positive) :
  shr_1 (exact_rec (Zpos p~0)) = exact_rec (Zpos p).
Proof. reflexivity. Qed.

(** Shifting out [k] zero bits loses nothing. *)
Lemma iter_shr_exact (p k : positive) :
  Pos.iter shr_1 (exact_rec (Zpos (Pos.iter xO p k))) k = exact_rec (Zpos p).
Proof.
  induction k as [ | k IH] using Pos.peano_ind.
  - reflexivity.
  - rewrite Pos.iter_succ_r. rewrite Pos.iter_succ. rewrite shr_1_double. exact IH.
Qed.

Lemma shl_align_eq (mx : positive) (ex ex' : Z) :
  shl_align mx ex ex' = (shlZ mx (ex - ex'), Z.min ex ex').
Proof.
  unfold shl_align, shlZ.
  destruct (ex' - ex) as [ | d | d] eqn:E.
  - replace (ex - ex') with 0 by lia. f_equal. lia.
  - replace (ex - ex') with (Zneg d) by lia. f_equal. lia.
  - replace (ex - ex') with (Zpos d) by lia. f_equal. lia.
Qed.

Lemma shlZ_spec (p : positive) (n : Z) :
  0 <= n -> Zpos (shlZ p n) = Zpos p * 2 ^ n.
Proof.
  intros Hn. destruct n as [ | d | d]; cbn [shlZ]; try lia.
  apply iter_xO_spec.
Qed.

Lemma shlZ_digits (p : positive) (n : Z) :
  0 <= n -> Zpos (digits2_pos (shlZ p n)) = Zpos (digits2_pos p) + n.
Proof.
  intros Hn. destruct n as [ | d | d]; cbn [shlZ]; try lia.
  rewrite iter_xO_digits. lia.
Qed.

Lemma shlZ_shlZ (p : positive) (a b : Z) :
  0 <= a -> 0 <= b -> shlZ (shlZ p a) b = shlZ p (a + b).
Proof.
  intros Ha Hb.
  destruct a as [ | a | a]; destruct b as [ | b | b]; try lia; cbn [shlZ Z.add]; try reflexivity.
  rewrite Pos.add_comm. symmetry. apply Pos.iter_add.
Qed.

Lemma shr_shlZ_le (p : positive) (e a b : Z) :
  0 <= b <= a ->
  shr (exact_rec (Zpos (shlZ p a))) e b = (exact_rec (Zpos (shlZ p (a - b))), e + b).
Proof.
  intros H. destruct b as [ | b | b]; try lia.
  - cbn [shr]. rewrite Z.sub_0_r, Z.add_0_r. reflexivity.
  - cbn [shr]. f_equal. rewrite iter_pos_eq.
    replace a with ((a - Zpos b) + Zpos b) at 1 by lia.
    rewrite <- shlZ_shlZ by lia. cbn [shlZ]. apply iter_shr_exact.
Qed.

Lemma shr_shlZ_ge (p : positive) (e a b : Z) :
  0 <= a <= b ->
  shr (exact_rec (Zpos (shlZ p a))) e b = shr (exact_rec (Zpos p)) (e + a) (b - a).
Proof.
  intros H. destruct (Z.eq_dec a b) as [-> | Hne].
  - rewrite shr_shlZ_le by lia. rewrite !Z.sub_diag. reflexivity.
  - destruct a as [ | a | a]; try lia.
    + cbn [shlZ]. rewrite Z.add_0_r, Z.sub_0_r. reflexivity.
    + destruct b as [ | b | b]; try lia.
      assert (Hlt : (a < b)%positive) by lia.
      replace (Zpos b - Zpos a) with (Zpos (b - a)) by lia.
      cbn [shr shlZ]. f_equal; [ | lia].
      rewrite !iter_pos_eq.
      replace b with ((b - a) + a)%positive at 1 by lia.
      rewrite Pos.iter_add. rewrite iter_shr_exact. reflexivity.
Qed.

(** Rounding depends on the value only: [p * 2^k] at exponent [e] and [p]
    at exponent [e + k] round to the same float. *)
Lemma binary_round_rescale (s : bool) (p : positive) (k e : Z) :
  0 <= k ->
  binary_round prec emax s (shlZ p k) e = binary_round prec emax s p (e + k).
Proof.
  intros Hk. unfold binary_round. rewrite !shl_align_eq.
  rewrite shlZ_digits by lia.
  replace (Zpos (digits2_pos p) + k + e) with (Zpos (digits2_pos p) + (e + k)) by lia.
  set (d := Zpos (digits2_pos p)).
  set (t := fexp prec emax (d + (e + k))).
  unfold binary_round_aux, shr_fexp. cbn [Zdigits2 shr_record_of_loc].
  fold (exact_rec (Zpos (shlZ (shlZ p k) (e - t)))).
  fold (exact_rec (Zpos (shlZ p (e + k - t)))).
  assert (E : shr (exact_rec (Zpos (shlZ (shlZ p k) (e - t)))) (Z.min e t)
                (fexp prec emax (Zpos (digits2_pos (shlZ (shlZ p k) (e - t))) + Z.min e t) - Z.min e t)
            = shr (exact_rec (Zpos (shlZ p (e + k - t)))) (Z.min (e + k) t)
                (fexp prec emax (Zpos (digits2_pos (shlZ p (e + k - t))) + Z.min (e + k) t) - Z.min (e + k) t)).
  { destruct (Z_le_gt_dec t e) as [H1 | H1].
    - rewrite shlZ_shlZ by lia. replace (k + (e - t)) with (e + k - t) by lia.
      rewrite !Z.min_r by lia. reflexivity.
    - assert (H2 : shlZ (shlZ p k) (e - t) = shlZ p k).
      { destruct (e - t) eqn:E; try lia; reflexivity. }
      rewrite H2. rewrite shlZ_digits by lia. rewrite (Z.min_l e t) by lia.
      fold d. replace (d + k + e) with (d + (e + k)) by lia. fold t.
      destruct (Z_le_gt_dec t (e + k)) as [H3 | H3].
      + rewrite shlZ_digits by lia. rewrite (Z.min_r (e + k) t) by lia.
        fold d. replace (d + (e + k - t) + t) with (d + (e + k)) by lia. fold t.
        rewrite Z.sub_diag. rewrite shr_shlZ_le by lia. cbn [shr].
        f_equal; [ | lia]. do 3 f_equal. lia.
      + assert (H4 : shlZ p (e + k - t) = p).
        { destruct (e + k - t) eqn:E; try lia; reflexivity. }
        rewrite H4. rewrite (Z.min_l (e + k) t) by lia. fold d. fold t.
        rewrite shr_shlZ_ge by lia. f_equal. lia. }
  rewrite E. reflexivity.
Qed.

Lemma binary_round_bounded (s : bool) (m : positive) (e : Z) :
  bounded prec emax m e = true ->
  binary_round prec emax s m e = S754_finite s m e.
Proof.
  intros H. unfold binary_round. rewrite shl_align_eq.
  pose proof H as H'. unfold bounded, canonical_mantissa in H'.
  apply andb_prop in H'. destruct H' as [Hc _]. apply Z.eqb_eq in Hc.
  rewrite Hc, Z.sub_diag, Z.min_id. cbn [shlZ].
  now apply round_aux_bounded.
Qed.

Lemma dyadic_rescale (m k e : Z) :
  0 <= k -> dyadic (m * 2 ^ k) e = dyadic m (e + k).
Proof.
  intros Hk. unfold dyadic.
  destruct m as [ | p | p].
  - reflexivity.
  - rewrite <- shlZ_spec by lia. cbn [binary_normalize]. now apply binary_round_rescale.
  - replace (Zneg p * 2 ^ k) with (- (Zpos p * 2 ^ k)) by lia.
    rewrite <- shlZ_spec by lia. cbn [binary_normalize Z.opp]. now apply binary_round_rescale.
Qed.

Lemma slack_nonneg (p : positive) : Zpos p < 2 ^ 53 -> 0 <= slack p.
Proof.
  intros H. unfold slack. pose proof (digits2_pos_bounds p) as [Hl _].
  destruct (Z_le_gt_dec (Zpos (digits2_pos p)) 53) as [ | Hd]; [lia | exfalso].
  assert (2 ^ 53 <= 2 ^ (Zpos (digits2_pos p) - 1)) by (apply Z.pow_le_mono_r; lia).
  lia.
Qed.

Lemma bounded_full (p : positive) (e : Z) :
  Zpos p < 2 ^ 53 -> exp_ok e ->
  bounded prec emax (shlZ p (slack p)) (e - slack p) = true.
Proof.
  intros Hp [He1 He2]. pose proof (slack_nonneg p Hp) as Hs.
  unfold bounded, canonical_mantissa. rewrite shlZ_digits by lia.
  unfold slack in *. unfold fexp, emin, prec, emax.
  apply andb_true_intro. split; [apply Z.eqb_eq | apply Z.leb_le]; lia.
Qed.

(** A mantissa below [2^53] is normalised to 53 bits and kept. *)
Lemma binary_round_canon (s : bool) (p : positive) (e : Z) :
  Zpos p < 2 ^ 53 -> exp_ok e ->
  binary_round prec emax s p e = S754_finite s (shlZ p (slack p)) (e - slack p).
Proof.
  intros Hp He. pose proof (slack_nonneg p Hp) as Hs.
  replace e with (e - slack p + slack p) at 1 by lia.
  rewrite <- binary_round_rescale by lia.
  apply binary_round_bounded. now apply bounded_full.
Qed.

(** ** Exact arithmetic on dyadic values *)
Lemma dyadic_canon (m e : Z) :
  mant_ok m -> exp_ok e -> dyadic_view m e (dyadic m e).
Proof.
  unfold mant_ok. intros Hm He. unfold dyadic. destruct m as [ | p | p]; cbn [binary_normalize].
  - now constructor.
  - rewrite binary_round_canon by (auto; lia).
    pose proof (slack_nonneg p ltac:(lia)) as Hs.
    assert (Hv : Zpos (shlZ p (slack p)) = Zpos p * 2 ^ (e - (e - slack p))).
    { rewrite shlZ_spec by lia. f_equal. f_equal. lia. }
    assert (Hd : Zpos (digits2_pos (shlZ p (slack p))) = 53).
    { rewrite shlZ_digits by lia. unfold slack. lia. }
    destruct He. unfold slack in Hs.
    constructor; unfold slack; cbn [cond_Zopp]; try lia; try reflexivity; assumption.
  - rewrite binary_round_canon by (auto; lia).
    pose proof (slack_nonneg p ltac:(lia)) as Hs.
    assert (Hv : - Zpos (shlZ p (slack p)) = Zneg p * 2 ^ (e - (e - slack p))).
    { rewrite shlZ_spec by lia. replace (e - (e - slack p)) with (slack p) by lia. lia. }
    assert (Hd : Zpos (digits2_pos (shlZ p (slack p))) = 53).
    { rewrite shlZ_digits by lia. unfold slack. lia. }
    destruct He. unfold slack in Hs.
    constructor; unfold slack; cbn [cond_Zopp]; try lia; try reflexivity; assumption.
Qed.

Lemma neg_dyadic (m e : Z) :
  mant_ok m -> exp_ok e -> m <> 0 -> neg (dyadic m e) = dyadic (- m) e.
Proof.
  unfold mant_ok, dyadic. intros Hm He Hz.
  destruct m as [ | p | p]; [easy | | ]; cbn [binary_normalize Z.opp];
    rewrite !binary_round_canon by (auto; lia); reflexivity.
Qed.

Lemma cond_Zopp_mul (s : bool) (a b : Z) :
  cond_Zopp s (a * b) = cond_Zopp s a * b.
Proof. destruct s; cbn [cond_Zopp]; lia. Qed.

(** Sum and difference of finite floats: the exact integer sum of the
    aligned mantissas, then rounded. *)
Lemma add_finite (s1 s2 : bool) (M1 M2 : positive) (E1 E2 : Z) :
  add (S754_finite s1 M1 E1) (S754_finite s2 M2 E2)
  = dyadic (cond_Zopp s1 (Zpos M1) * 2 ^ (E1 - Z.min E1 E2)
            + cond_Zopp s2 (Zpos M2) * 2 ^ (E2 - Z.min E1 E2)) (Z.min E1 E2).
Proof.
  unfold add, SFadd, dyadic. rewrite !shl_align_eq. cbn [fst].
  rewrite !shlZ_spec by lia. rewrite !cond_Zopp_mul. reflexivity.
Qed.

Lemma sub_finite (s1 s2 : bool) (M1 M2 : positive) (E1 E2 : Z) :
  sub (S754_finite s1 M1 E1) (S754_finite s2 M2 E2)
  = dyadic (cond_Zopp s1 (Zpos M1) * 2 ^ (E1 - Z.min E1 E2)
            - cond_Zopp s2 (Zpos M2) * 2 ^ (E2 - Z.min E1 E2)) (Z.min E1 E2).
Proof.
  unfold sub, SFsub, dyadic. rewrite !shl_align_eq. cbn [fst].
  rewrite !shlZ_spec by lia. rewrite !cond_Zopp_mul. reflexivity.
Qed.

Lemma pow2_split (a b : Z) : 0 <= a -> 0 <= b -> 2 ^ a * 2 ^ b = 2 ^ (a + b).
Proof. intros. now rewrite Z.pow_add_r. Qed.

(** On a common grid [2^e] the mantissas add; the result is rounded only
    if the sum does not fit. *)
Lemma add_dyadic (m1 m2 e : Z) :
  mant_ok m1 -> mant_ok m2 -> exp_ok e ->
  add (dyadic m1 e) (dyadic m2 e) = dyadic (m1 + m2) e.
Proof.
  intros H1 H2 He.
  pose proof (dyadic_canon m1 e H1 He) as V1.
  pose proof (dyadic_canon m2 e H2 He) as V2.
  remember (dyadic m1 e) as x1 eqn:X1. remember (dyadic m2 e) as x2 eqn:X2.
  destruct V1 as [-> | s1 M1 E1 N1 L1 V1 D1 S1 R1]; destruct V2 as [-> | s2 M2 E2 N2 L2 V2 D2 S2 R2].
  - reflexivity.
  - cbn [Z.add]. now rewrite <- X2.
  - rewrite Z.add_0_r. now rewrite <- X1.
  - rewrite add_finite, V1, V2.
    rewrite <- !Z.mul_assoc, !pow2_split by lia.
    replace (e - E1 + (E1 - Z.min E1 E2)) with (e - Z.min E1 E2) by lia.
    replace (e - E2 + (E2 - Z.min E1 E2)) with (e - Z.min E1 E2) by lia.
    rewrite <- Z.mul_add_distr_r. rewrite dyadic_rescale by lia.
    f_equal. lia.
Qed.

Lemma sub_dyadic (m1 m2 e : Z) :
  mant_ok m1 -> mant_ok m2 -> exp_ok e ->
  sub (dyadic m1 e) (dyadic m2 e) = dyadic (m1 - m2) e.
Proof.
  intros H1 H2 He.
  pose proof (dyadic_canon m1 e H1 He) as V1.
  pose proof (dyadic_canon m2 e H2 He) as V2.
  remember (dyadic m1 e) as x1 eqn:X1. remember (dyadic m2 e) as x2 eqn:X2.
  destruct V1 as [-> | s1 M1 E1 N1 L1 V1 D1 S1 R1]; destruct V2 as [-> | s2 M2 E2 N2 L2 V2 D2 S2 R2].
  - reflexivity.
  - change (neg (S754_finite s2 M2 E2) = dyadic (0 - m2) e).
    rewrite X2, neg_dyadic by assumption. reflexivity.
  - rewrite Z.sub_0_r. now rewrite <- X1.
  - rewrite sub_finite, V1, V2.
    rewrite <- !Z.mul_assoc, !pow2_split by lia.
    replace (e - E1 + (E1 - Z.min E1 E2)) with (e - Z.min E1 E2) by lia.
    replace (e - E2 + (E2 - Z.min E1 E2)) with (e - Z.min E1 E2) by lia.
    rewrite <- Z.mul_sub_distr_r. rewrite dyadic_rescale by lia.
    f_equal. lia.
Qed.

Lemma digits_ge (p : positive) (k : Z) :
  2 ^ k <= Zpos p -> k < Zpos (digits2_pos p).
Proof.
  intros H. pose proof (digits2_pos_bounds p) as [_ Hu].
  destruct (Z_lt_ge_dec k (Zpos (digits2_pos p))) as [ | Hd]; [assumption | exfalso].
  assert (2 ^ Zpos (digits2_pos p) <= 2 ^ k) by (apply Z.pow_le_mono_r; lia).
  lia.
Qed.

(** With 53 digits or more there is nothing to align. *)
Lemma round_aux_long (s : bool) (P : positive) (E : Z) :
  53 <= Zpos (digits2_pos P) ->
  binary_round_aux prec emax s (Zpos P) E loc_Exact = binary_round prec emax s P E.
Proof.
  intros H. unfold binary_round. rewrite shl_align_eq.
  assert (Ht : E <= fexp prec emax (Zpos (digits2_pos P) + E)).
  { unfold fexp, prec. lia. }
  rewrite Z.min_l by lia.
  replace (shlZ P (E - fexp prec emax (Zpos (digits2_pos P) + E))) with P; [reflexivity | ].
  destruct (E - fexp prec emax (Zpos (digits2_pos P) + E)) eqn:X; try lia; reflexivity.
Qed.

Lemma mul_dyadic (m1 e1 m2 e2 : Z) :
  0 <= m1 -> 0 <= m2 -> mant_ok m1 -> mant_ok m2 -> exp_ok e1 -> exp_ok e2 ->
  mul (dyadic m1 e1) (dyadic m2 e2) = dyadic (m1 * m2) (e1 + e2).
Proof.
  intros P1 P2 H1 H2 He1 He2.
  pose proof (dyadic_canon m1 e1 H1 He1) as V1.
  pose proof (dyadic_canon m2 e2 H2 He2) as V2.
  remember (dyadic m1 e1) as x1 eqn:X1. remember (dyadic m2 e2) as x2 eqn:X2.
  destruct V1 as [-> | s1 M1 E1 N1 L1 V1 D1 S1 R1]; destruct V2 as [-> | s2 M2 E2 N2 L2 V2 D2 S2 R2].
  - reflexivity.
  - rewrite Z.mul_0_l. subst s2. replace (m2 <? 0) with false by (symmetry; apply Z.ltb_ge; lia). reflexivity.
  - rewrite Z.mul_0_r. subst s1. replace (m1 <? 0) with false by (symmetry; apply Z.ltb_ge; lia). reflexivity.
  - assert (S1' : s1 = false) by (subst s1; apply Z.ltb_ge; lia).
    assert (S2' : s2 = false) by (subst s2; apply Z.ltb_ge; lia).
    subst s1 s2. rewrite S1', S2' in *. cbn [cond_Zopp] in V1, V2.
    unfold mul, SFmul. cbn [xorb].
    pose proof (digits2_pos_bounds M1) as [B1 _]. pose proof (digits2_pos_bounds M2) as [B2 _].
    rewrite D1 in B1. rewrite D2 in B2.
    rewrite round_aux_long.
    2:{ assert (104 < Zpos (digits2_pos (M1 * M2))); [ | lia].
        apply digits_ge. rewrite Pos2Z.inj_mul.
        change (2 ^ 104) with (2 ^ (53 - 1) * 2 ^ (53 - 1)).
        apply Z.mul_le_mono_nonneg; lia. }
    change (binary_round prec emax false (M1 * M2) (E1 + E2))
      with (dyadic (Zpos (M1 * M2)) (E1 + E2)).
    rewrite Pos2Z.inj_mul, V1, V2.
    replace (m1 * 2 ^ (e1 - E1) * (m2 * 2 ^ (e2 - E2)))
      with (m1 * m2 * (2 ^ (e1 - E1) * 2 ^ (e2 - E2))) by ring.
    rewrite pow2_split by lia. rewrite dyadic_rescale by lia. f_equal. lia.
Qed.

Lemma pow2_digits_53 (M : positive) (j : Z) :
  0 <= j -> Zpos M = 2 ^ j -> Zpos (digits2_pos M) = 53 -> j = 52.
Proof.
  intros Hj HM HD. pose proof (digits2_pos_bounds M) as [Hl Hu].
  rewrite HD, HM in *.
  apply Z.pow_le_mono_r_iff in Hl; try lia.
  apply Z.pow_lt_mono_r_iff in Hu; try lia.
Qed.

(** Division by a power of two moves the exponent. *)
Lemma div_dyadic_pow2 (m e k : Z) :
  mant_ok m -> exp_ok e -> exp_ok (e - k) -> 0 <= k <= 52 ->
  div (dyadic m e) (dyadic (2 ^ k) 0) = dyadic m (e - k).
Proof.
  intros H1 He [Hek1 Hek2] Hk.
  assert (H2 : mant_ok (2 ^ k)).
  { unfold mant_ok. rewrite Z.abs_eq by (apply Z.pow_nonneg; lia).
    apply Z.pow_lt_mono_r; lia. }
  assert (He0 : exp_ok 0) by (unfold exp_ok; lia).
  pose proof (dyadic_canon m e H1 He) as V1.
  pose proof (dyadic_canon (2 ^ k) 0 H2 He0) as V2.
  remember (dyadic m e) as x1 eqn:X1. remember (dyadic (2 ^ k) 0) as x2 eqn:X2.
  assert (Hpos : 0 < 2 ^ k) by (apply Z.pow_pos_nonneg; lia).
  destruct V2 as [Hz | s2 M2 E2 N2 L2 V2 D2 S2 R2]; [lia | ].
  assert (S2' : s2 = false) by (subst s2; apply Z.ltb_ge; lia).
  rewrite S2' in *. cbn [cond_Zopp] in V2.
  rewrite pow2_split in V2 by lia.
  assert (HE2 : k + (0 - E2) = 52) by (apply (pow2_digits_53 M2); [lia | exact V2 | exact D2]).
  replace (k + (0 - E2)) with 52 in V2 by lia.
  destruct V1 as [-> | s1 M1 E1 N1 L1 V1 D1 S1 R1].
  - reflexivity.
  - unfold div, SFdiv, SFdiv_core_binary. cbn [Zdigits2]. rewrite D1, D2, V2.
    destruct He as [He1 He2].
    assert (Hf : Z.min (fexp prec emax (53 + E1 - (53 + E2))) (E1 - E2) = E1 - E2 - 53).
    { unfold fexp, emin, prec, emax.
      pose proof (digits2_pos_bounds M1) as [B1 B1']. rewrite D1 in B1, B1'.
      assert (e - E1 <= 52).
      { destruct (Z_le_gt_dec (e - E1) 52) as [ | Hgt]; [assumption | exfalso].
        assert (2 ^ 53 <= 2 ^ (e - E1)) by (apply Z.pow_le_mono_r; lia).
        assert (Z.abs (cond_Zopp s1 (Zpos M1)) = Zpos M1) by (destruct s1; cbn; lia).
        assert (Z.abs (m * 2 ^ (e - E1)) = Z.abs m * 2 ^ (e - E1)).
        { rewrite Z.abs_mul. f_equal. apply Z.abs_eq. lia. }
        assert (1 <= Z.abs m) by lia.
        assert (2 ^ 53 <= Z.abs m * 2 ^ (e - E1)) by nia.
        lia. }
      lia. }
    rewrite Hf.
    replace (E1 - E2 - (E1 - E2 - 53)) with 53 by lia.
    rewrite Z.shiftl_mul_pow2 by lia.
    destruct (Z.div_eucl (Zpos M1 * 2 ^ 53) (2 ^ 52)) as [q r] eqn:Hqr.
    assert (Hq : q = Zpos M1~0 /\ r = 0).
    { pose proof (Z.div_eucl_eq (Zpos M1 * 2 ^ 53) (2 ^ 52) ltac:(lia)) as Heq.
      rewrite Hqr in Heq.
      pose proof (Z.mod_pos_bound (Zpos M1 * 2 ^ 53) (2 ^ 52) ltac:(lia)) as Hb.
      unfold Z.modulo in Hb. rewrite Hqr in Hb.
      change (2 ^ 53) with (2 * 2 ^ 52) in Heq. rewrite Pos2Z.inj_xO. nia. }
    destruct Hq as [-> ->].
    replace (new_location (2 ^ 52) 0) with loc_Exact by reflexivity.
    cbn [xorb]. rewrite xorb_false_r.
    rewrite round_aux_long by (cbn [digits2_pos]; lia).
    change (M1~0)%positive with (shlZ M1 1).
    rewrite binary_round_rescale by lia.
    destruct s1; cbn [cond_Zopp] in V1.
    + assert (m < 0) by (pose proof (Z.pow_pos_nonneg 2 (e - E1)); nia).
      assert (Hm : m = Zneg (Z.to_pos (- m))) by lia.
      rewrite Hm at 1. unfold dyadic. cbn [binary_normalize].
      replace M1 with (shlZ (Z.to_pos (- m)) (e - E1)).
      2:{ apply Pos2Z.inj. rewrite shlZ_spec by lia. lia. }
      rewrite binary_round_rescale by lia. f_equal. lia.
    + assert (m > 0) by (pose proof (Z.pow_pos_nonneg 2 (e - E1)); nia).
      assert (Hm : m = Zpos (Z.to_pos m)) by lia.
      rewrite Hm at 1. unfold dyadic. cbn [binary_normalize].
      replace M1 with (shlZ (Z.to_pos m) (e - E1)).
      2:{ apply Pos2Z.inj. rewrite shlZ_spec by lia. lia. }
      rewrite binary_round_rescale by lia. f_equal. lia.
Qed.

Lemma mul_compare_r (a b c : Z) : 0 < c -> (a * c ?= b * c) = (a ?= b).
Proof.
  intros Hc. destruct (Z.compare_spec a b) as [-> | H | H].
  - apply Z.compare_refl.
  - apply Z.compare_lt_iff. nia.
  - apply Z.compare_gt_iff. nia.
Qed.

(** Comparison with an integer is comparison of the mantissa. *)
Lemma compare_int_dyadic (m e n : Z) :
  mant_ok m -> exp_ok e -> e <= 0 ->
  compare_int (dyadic m e) n = Some (m ?= n * 2 ^ (- e)).
Proof.
  intros Hm He Hle.
  pose proof (dyadic_canon m e Hm He) as V.
  remember (dyadic m e) as x eqn:X.
  assert (Hp : 0 < 2 ^ (- e)) by (apply Z.pow_pos_nonneg; lia).
  destruct V as [-> | s M E N L V D S R]; cbn [compare_int].
  - f_equal. rewrite <- (mul_compare_r 0 n (2 ^ (- e))) by assumption. reflexivity.
  - f_equal. rewrite V. destruct E as [ | E | E]; try lia.
    + assert (e = 0) by lia. subst e. cbn. now rewrite !Z.mul_1_r.
    + replace (2 ^ Zpos E) with (2 ^ (- e) * 2 ^ (e - Zneg E)).
      2:{ rewrite pow2_split by lia. f_equal. lia. }
      rewrite Z.mul_assoc. apply mul_compare_r. apply Z.pow_pos_nonneg; lia.
Qed.

Lemma dyadic_finite (m e : Z) :
  mant_ok m -> exp_ok e -> is_finite (dyadic m e) = true.
Proof.
  intros Hm He. destruct (dyadic_canon m e Hm He); reflexivity.
Qed.

(** ** No NaN out of finite operands *)
Lemma shr_1_nonneg (mrs : shr_record) : 0 <= shr_m mrs -> 0 <= shr_m (shr_1 mrs).
Proof.
  destruct mrs as [m r s]. cbn [shr_m]. intros H.
  destruct m as [ | [p | p | ] | p]; cbn; lia.
Qed.

Lemma shr_nonneg (mrs : shr_record) (e n : Z) :
  0 <= shr_m mrs -> 0 <= shr_m (fst (shr mrs e n)).
Proof.
  intros H. destruct n as [ | p | p]; cbn [shr fst]; try assumption.
  rewrite iter_pos_eq. apply Pos.iter_invariant; [ | assumption].
  intros; now apply shr_1_nonneg.
Qed.

Lemma shr_record_of_loc_m (m : Z) (l : location) : shr_m (shr_record_of_loc m l) = m.
Proof. destruct l as [ | [ | | ]]; reflexivity. Qed.

Lemma round_nearest_even_nonneg (m : Z) (l : location) :
  0 <= m -> 0 <= round_nearest_even m l.
Proof.
  intros H. destruct l as [ | [ | | ]]; cbn [round_nearest_even]; try lia.
  destruct (Z.even m); lia.
Qed.

Lemma round_aux_not_nan (s : bool) (m e : Z) (l : location) :
  0 <= m -> is_nan (binary_round_aux prec emax s m e l) = false.
Proof.
  intros H. unfold binary_round_aux, shr_fexp.
  pose proof (shr_nonneg (shr_record_of_loc m l) e
                (fexp prec emax (Zdigits2 m + e) - e)) as H1.
  rewrite shr_record_of_loc_m in H1. specialize (H1 H).
  destruct (shr (shr_record_of_loc m l) e (fexp prec emax (Zdigits2 m + e) - e)) as [mrs' e'].
  cbn [fst] in H1.
  set (m1 := round_nearest_even (shr_m mrs') (loc_of_shr_record mrs')).
  assert (H2 : 0 <= m1) by now apply round_nearest_even_nonneg.
  pose proof (shr_nonneg (shr_record_of_loc m1 loc_Exact) e'
                (fexp prec emax (Zdigits2 m1 + e') - e')) as H3.
  rewrite shr_record_of_loc_m in H3. specialize (H3 H2).
  destruct (shr (shr_record_of_loc m1 loc_Exact) e' (fexp prec emax (Zdigits2 m1 + e') - e')) as [mrs'' e''].
  cbn [fst] in H3.
  destruct (shr_m mrs'') as [ | p | p]; try lia; [reflexivity | ].
  destruct (e'' <=? emax - prec); reflexivity.
Qed.

Lemma dyadic_not_nan (m e : Z) : is_nan (dyadic m e) = false.
Proof.
  unfold dyadic. destruct m as [ | p | p]; cbn [binary_normalize]; [reflexivity | | ];
    unfold binary_round;
    destruct (shl_align p e (fexp prec emax (Zpos (digits2_pos p) + e))) as [mz ez];
    apply round_aux_not_nan; lia.
Qed.

Lemma add_not_nan (x y : float) :
  is_nan x = false -> is_finite y = true -> is_nan (add x y) = false.
Proof.
  intros Hx Hy.
  destruct x as [sx | sx | | sx mx ex]; try discriminate;
  destruct y as [sy | sy | | sy my ey]; try discriminate;
  try reflexivity.
  - destruct sx, sy; reflexivity.
  - rewrite add_finite. apply dyadic_not_nan.
Qed.

Lemma sub_not_nan (x y : float) :
  is_nan x = false -> is_finite y = true -> is_nan (sub x y) = false.
Proof.
  intros Hx Hy.
  destruct x as [sx | sx | | sx mx ex]; try discriminate;
  destruct y as [sy | sy | | sy my ey]; try discriminate;
  try reflexivity.
  - destruct sx, sy; reflexivity.
  - rewrite sub_finite. apply dyadic_not_nan.
Qed.

Lemma mul_not_nan (x y : float) :
  is_finite x = true -> is_finite y = true -> is_nan (mul x y) = false.
Proof.
  intros Hx Hy.
  destruct x as [sx | sx | | sx mx ex]; try discriminate;
  destruct y as [sy | sy | | sy my ey]; try discriminate;
  try reflexivity.
  unfold mul, SFmul. apply round_aux_not_nan. lia.
Qed.

(** [h - h] is [+0.0] for every finite [h]. *)
Lemma sub_self (h : float) : is_finite h = true -> sub h h = S754_zero false.
Proof.
  destruct h as [s | s | | s m e]; try discriminate; intros _.
  - destruct s; reflexivity.
  - rewrite sub_finite. rewrite Z.sub_diag. reflexivity.
Qed.

Lemma of_int_dyadic (n : Z) : of_int n = dyadic n 0.
Proof. reflexivity. Qed.

Lemma mant_ok_small (n b : Z) : 0 <= n < 2 ^ b -> 0 <= b <= 53 -> mant_ok n.
Proof.
  intros Hn Hb. unfold mant_ok. rewrite Z.abs_eq by lia.
  assert (2 ^ b <= 2 ^ 53) by (apply Z.pow_le_mono_r; lia). lia.
Qed.

Lemma exp_ok_small (e : Z) : -64 <= e <= 64 -> exp_ok e.
Proof. unfold exp_ok. lia. Qed.

(** The exact value of [dyadic m e] is [m / 2^(-e)]. *)
Lemma to_Q_dyadic (m e : Z) :
  mant_ok m -> exp_ok e -> e <= 0 ->
  exists q, to_Q (dyadic m e) = Some q /\ Qeq q (Qmake m (Z.to_pos (2 ^ (- e)))).
Proof.
  intros Hm He Hle.
  pose proof (dyadic_canon m e Hm He) as V.
  remember (dyadic m e) as x eqn:X.
  assert (Hp : 0 < 2 ^ (- e)) by (apply Z.pow_pos_nonneg; lia).
  destruct V as [-> | s M E N L V D S R]; cbn [to_Q].
  - eexists. split; [reflexivity | ]. unfold Qeq. cbn. reflexivity.
  - eexists. split; [reflexivity | ]. rewrite V.
    unfold Qeq. destruct E as [ | E | E]; try lia.
    + assert (e = 0) by lia. subst e. cbn. lia.
    + cbn [Qnum Qden]. rewrite Z2Pos.id by lia. rewrite Pos2Z.inj_pow.
      rewrite <- !Z.mul_assoc. f_equal. rewrite pow2_split by lia. f_equal. lia.
Qed.

Lemma neg_finite (v : float) : is_finite (neg v) = is_finite v.
Proof. destruct v; reflexivity. Qed.

Lemma finite_not_nan (x : float) : is_finite x = true -> is_nan x = false.
Proof. destruct x; easy. Qed.

(** Apart from NaN, every float compares with every integer. *)
Lemma compare_int_total (a : float) (n : Z) :
  is_nan a = false -> exists c, compare_int a n = Some c.
Proof.
  intros Hn. destruct a as [s | s | | s m e]; try discriminate Hn;
    cbv beta iota zeta delta [compare_int]; eauto.
Qed.

Lemma not_lt_ge (a : float) (n : Z) :
  is_nan a = false -> lt_int a n = false -> ge_int a n = true.
Proof.
  intros Hn. destruct (compare_int_total a n Hn) as [c Hc].
  unfold lt_int, ge_int. rewrite Hc. now destruct c.
Qed.

Lemma not_gt_le (a : float) (n : Z) :
  is_nan a = false -> gt_int a n = false -> le_int a n = true.
Proof.
  intros Hn. destruct (compare_int_total a n Hn) as [c Hc].
  unfold gt_int, le_int. rewrite Hc. now destruct c.
Qed.

Lemma half_dyadic (M : Z) :
  0 < M < 2 ^ 52 -> div (dyadic M (-30)) (of_int 2) = dyadic M (-31).
Proof.
  intros HM. change (of_int 2) with (dyadic (2 ^ 1) 0).
  rewrite div_dyadic_pow2; try reflexivity; try (apply exp_ok_small; lia); try lia.
  apply (mant_ok_small M 52); lia.
Qed.

Lemma bound_dyadic (bound : Z) : of_int bound = dyadic (bound * 2 ^ 31) (-31).
Proof. rewrite dyadic_rescale by lia. reflexivity. Qed.

Lemma abs_neg (v : float) : abs (neg v) = abs v.
Proof. destruct v; reflexivity. Qed.


End F64Facts.

Import F64Facts.

(** * The generator and the simulation *)

(** ** [SimpleRNG] *)
Lemma shiftl_1_32 : Z.shiftl 1 32 = 2 ^ 32.
Proof. reflexivity. Qed.

Lemma next_range (r : SimpleRNG.t) : 0 <= fst (SimpleRNG.next r) < 2 ^ 32.
Proof.
  unfold SimpleRNG.next. cbn [fst]. rewrite shiftl_1_32.
  apply Z.mod_pos_bound. lia.
Qed.

Lemma next_state (r : SimpleRNG.t) :
  SimpleRNG.state (snd (SimpleRNG.next r)) = fst (SimpleRNG.next r).
Proof. reflexivity. Qed.

Lemma truediv_32 (n : Z) :
  0 <= n < 2 ^ 32 -> F64.truediv n (Z.shiftl 1 32) = F64.dyadic n (-32).
Proof.
  intros Hn. unfold F64.truediv. rewrite shiftl_1_32, !of_int_dyadic.
  rewrite div_dyadic_pow2; try reflexivity; try (apply exp_ok_small; lia); try lia.
  now apply (mant_ok_small n 32).
Qed.

(** [random()] is computed without rounding. *)
Lemma random_dyadic (r : SimpleRNG.t) :
  fst (SimpleRNG.random r) = F64.dyadic (fst (SimpleRNG.next r)) (-32).
Proof.
  pose proof (next_range r) as H. unfold SimpleRNG.random.
  destruct (SimpleRNG.next r) as [n r'] eqn:E. cbn [fst] in *.
  now apply truediv_32.
Qed.

Lemma random_snd (r : SimpleRNG.t) : snd (SimpleRNG.random r) = snd (SimpleRNG.next r).
Proof. unfold SimpleRNG.random. destruct (SimpleRNG.next r); reflexivity. Qed.

Lemma land_mask (seed : Z) : Z.land seed 0xFFFFFFFF = seed mod 2 ^ 32.
Proof. change 0xFFFFFFFF with (Z.ones 32). apply Z.land_ones. lia. Qed.

Lemma after_state_range (k : nat) (r : SimpleRNG.t) :
  0 <= SimpleRNG.state r < 2 ^ 32 ->
  0 <= SimpleRNG.state (SimpleRNG.after k r) < 2 ^ 32.
Proof.
  revert r. induction k as [ | k IH]; intros r Hr; cbn [SimpleRNG.after]; [assumption | ].
  apply IH. rewrite next_state. apply next_range.
Qed.

Lemma after_add (a b : nat) (r : SimpleRNG.t) :
  SimpleRNG.after (a + b) r = SimpleRNG.after b (SimpleRNG.after a r).
Proof.
  revert r. induction a as [ | a IH]; intros r; cbn [Nat.add SimpleRNG.after]; [reflexivity | apply IH].
Qed.

Lemma after_S (a : nat) (r : SimpleRNG.t) :
  SimpleRNG.after (S a) r = snd (SimpleRNG.random (SimpleRNG.after a r)).
Proof.
  replace (S a) with (a + 1)%nat by lia. rewrite after_add. cbn [SimpleRNG.after].
  now rewrite random_snd.
Qed.

(** ** [Simulation.__init__] *)
Lemma new_rectangle_draws (W H i : Z) (g : SimpleRNG.t) :
  Simulation.new_rectangle W H i g =
  (Rectangle.mk (i + 1)
     (F64.mul (fst (SimpleRNG.random g)) (F64.of_int W))
     (F64.mul (fst (SimpleRNG.random (SimpleRNG.after 1 g))) (F64.of_int H))
     (F64.add (F64.of_int 20) (F64.mul (fst (SimpleRNG.random (SimpleRNG.after 2 g))) (F64.of_int 60)))
     (F64.add (F64.of_int 20) (F64.mul (fst (SimpleRNG.random (SimpleRNG.after 3 g))) (F64.of_int 60)))
     (F64.add (F64.neg (F64.of_int 5)) (F64.mul (fst (SimpleRNG.random (SimpleRNG.after 4 g))) (F64.of_int 10)))
     (F64.add (F64.neg (F64.of_int 5)) (F64.mul (fst (SimpleRNG.random (SimpleRNG.after 5 g))) (F64.of_int 10))),
   SimpleRNG.after 6 g).
Proof.
  rewrite (after_S 5), (after_S 4), (after_S 3), (after_S 2), (after_S 1), (after_S 0).
  cbn [SimpleRNG.after]. unfold Simulation.new_rectangle.
  destruct (SimpleRNG.random g) as [r1 g1]. cbn [fst snd].
  destruct (SimpleRNG.random g1) as [r2 g2]. cbn [fst snd].
  destruct (SimpleRNG.random g2) as [r3 g3]. cbn [fst snd].
  destruct (SimpleRNG.random g3) as [r4 g4]. cbn [fst snd].
  destruct (SimpleRNG.random g4) as [r5 g5]. cbn [fst snd].
  destruct (SimpleRNG.random g5) as [r6 g6]. cbn [fst snd].
  reflexivity.
Qed.

Lemma init_loop_spec (W H seed : Z) (k : nat) :
  forall (j : nat) (rects : list Rectangle.t),
  Simulation.init_loop W H k (Z.of_nat j)
    (SimpleRNG.after (6 * j) (SimpleRNG.init seed)) rects
  = rects ++ map (Simulation.spec_rectangle W H seed) (seq j k).
Proof.
  induction k as [ | k IH]; intros j rects; cbn [Simulation.init_loop seq map].
  - now rewrite app_nil_r.
  - rewrite new_rectangle_draws.
    replace (Z.of_nat j + 1) with (Z.of_nat (S j)) by lia.
    rewrite <- after_add. replace (6 * j + 6)%nat with (6 * S j)%nat by lia.
    rewrite IH. rewrite <- app_assoc. cbn [app]. do 2 f_equal.
    unfold Simulation.spec_rectangle, Simulation.draw. rewrite <- !after_add.
    f_equal. lia.
Qed.

(** ** [Simulation.update] *)

(** The two axes of [update_rect] go through the same three-way test. *)
Lemma update_rect_bounce (W H : Z) (r : Rectangle.t) :
  Simulation.update_rect W H r =
  let '(x2, vx2) :=
    Simulation.bounce (F64.add (Rectangle.x r) (Rectangle.vx r))
      (F64.div (Rectangle.width r) (F64.of_int 2)) (Rectangle.vx r) W in
  let '(y2, vy2) :=
    Simulation.bounce (F64.add (Rectangle.y r) (Rectangle.vy r))
      (F64.div (Rectangle.height r) (F64.of_int 2)) (Rectangle.vy r) H in
  Rectangle.mk (Rectangle.id r) x2 y2
    (Rectangle.width r) (Rectangle.height r) vx2 vy2.
Proof. reflexivity. Qed.

Lemma init_spec (W H n seed : Z) :
  Simulation.rectangles (Simulation.init W H n seed)
  = map (Simulation.spec_rectangle W H seed) (seq 0 (Z.to_nat n)).
Proof.
  unfold Simulation.init. cbn [Simulation.rectangles].
  apply (init_loop_spec W H seed (Z.to_nat n) 0 []).
Qed.

Lemma bounce_velocity (p half v : F64.float) (bound : Z) :
  snd (Simulation.bounce p half v bound)
  = if Simulation.hits_wall p half bound then F64.neg v else v.
Proof.
  unfold Simulation.bounce, Simulation.hits_wall.
  destruct (F64.lt_int (F64.sub p half) 0); [reflexivity | ].
  destruct (F64.gt_int (F64.add p half) bound); reflexivity.
Qed.


Lemma update_rect_fields (W H : Z) (r : Rectangle.t) :
  Rectangle.id (Simulation.update_rect W H r) = Rectangle.id r
  /\ Rectangle.width (Simulation.update_rect W H r) = Rectangle.width r
  /\ Rectangle.height (Simulation.update_rect W H r) = Rectangle.height r
  /\ Rectangle.vx (Simulation.update_rect W H r)
     = (if Simulation.hits_side W r then F64.neg (Rectangle.vx r) else Rectangle.vx r)
  /\ Rectangle.vy (Simulation.update_rect W H r)
     = (if Simulation.hits_top_bottom H r then F64.neg (Rectangle.vy r) else Rectangle.vy r).
Proof.
  unfold Simulation.hits_side, Simulation.hits_top_bottom. rewrite <- !bounce_velocity.
  rewrite update_rect_bounce.
  destruct (Simulation.bounce (F64.add (Rectangle.x r) (Rectangle.vx r)) _ _ W) as [x2 vx2].
  destruct (Simulation.bounce (F64.add (Rectangle.y r) (Rectangle.vy r)) _ _ H) as [y2 vy2].
  cbn. easy.
Qed.

Lemma update_rect_speed (W H : Z) (r : Rectangle.t) :
  F64.abs (Rectangle.vx (Simulation.update_rect W H r)) = F64.abs (Rectangle.vx r)
  /\ F64.abs (Rectangle.vy (Simulation.update_rect W H r)) = F64.abs (Rectangle.vy r).
Proof.
  destruct (update_rect_fields W H r) as (_ & _ & _ & E4 & E5). rewrite E4, E5.
  destruct (Simulation.hits_side W r), (Simulation.hits_top_bottom H r); rewrite ?abs_neg; easy.
Qed.

Lemma update_ids (s : Simulation.t) :
  Simulation.get_ground_truth_ids (Simulation.update s) = Simulation.get_ground_truth_ids s.
Proof.
  unfold Simulation.get_ground_truth_ids, Simulation.update. cbn [Simulation.rectangles].
  rewrite map_map. apply map_ext. intros r. apply update_rect_fields.
Qed.

Lemma updates_ids (k : nat) (s : Simulation.t) :
  Simulation.get_ground_truth_ids (Simulation.updates k s) = Simulation.get_ground_truth_ids s.
Proof.
  revert s. induction k as [ | k IH]; intros s; cbn [Simulation.updates]; [reflexivity | ].
  now rewrite IH, update_ids.
Qed.

(** ** Containment *)

(** One axis of one step: the invariant is kept and both edges end up
    between the walls. *)
Lemma bounce_contains (bound : Z) (p v size : F64.float) :
  0 <= bound < 2 ^ 22 -> Simulation.good_axis bound p v size ->
  let half := F64.div size (F64.of_int 2) in
  let pv := Simulation.bounce (F64.add p v) half v bound in
  Simulation.good_axis bound (fst pv) (snd pv) size
  /\ F64.ge_int (F64.sub (fst pv) half) 0 = true
  /\ F64.le_int (F64.add (fst pv) half) bound = true.
Proof.
  intros Hb (Hp & Hv & M & HM & Hsize). cbv zeta.
  assert (P30 : 2 ^ 30 = 1073741824) by reflexivity.
  assert (P31 : 2 ^ 31 = 2147483648) by reflexivity.
  assert (P22 : 2 ^ 22 = 4194304) by reflexivity.
  assert (P52 : 2 ^ 52 = 4503599627370496) by reflexivity.
  assert (P53 : 2 ^ 53 = 9007199254740992) by reflexivity.
  assert (Hhalf : F64.div size (F64.of_int 2) = F64.dyadic M (-31)).
  { rewrite Hsize. apply half_dyadic. lia. }
  rewrite Hhalf.
  assert (E31 : F64.exp_ok (-31)) by (apply exp_ok_small; lia).
  assert (MM : F64.mant_ok M) by (apply (mant_ok_small M 52); lia).
  assert (Fh : F64.is_finite (F64.dyadic M (-31)) = true) by now apply dyadic_finite.
  assert (N1 : F64.is_nan (F64.add p v) = false) by now apply add_not_nan.
  unfold Simulation.bounce.
  destruct (F64.lt_int (F64.sub (F64.add p v) (F64.dyadic M (-31))) 0) eqn:Lo; cbn [fst snd].
  - (* clamped at the low wall *)
    split; [ | split].
    + split; [now apply finite_not_nan | split; [now rewrite neg_finite | now exists M]].
    + rewrite sub_self by assumption. reflexivity.
    + rewrite add_dyadic by assumption.
      unfold F64.le_int. rewrite compare_int_dyadic; try assumption; try lia.
      2:{ apply (mant_ok_small (M + M) 53); lia. }
      change (- -31) with 31.
      destruct (Z.compare_spec (M + M) (bound * 2 ^ 31)); try reflexivity; lia.
  - destruct (F64.gt_int (F64.add (F64.add p v) (F64.dyadic M (-31))) bound) eqn:Hi; cbn [fst snd].
    + (* clamped at the high wall *)
      assert (MB : F64.mant_ok (bound * 2 ^ 31)) by (apply (mant_ok_small _ 53); lia).
      assert (Hc : F64.sub (F64.of_int bound) (F64.dyadic M (-31)) = F64.dyadic (bound * 2 ^ 31 - M) (-31)).
      { rewrite bound_dyadic. now apply sub_dyadic. }
      rewrite Hc.
      assert (MK : F64.mant_ok (bound * 2 ^ 31 - M)) by (apply (mant_ok_small _ 53); lia).
      split; [ | split].
      * split; [apply dyadic_not_nan | split; [now rewrite neg_finite | now exists M]].
      * rewrite sub_dyadic by assumption.
        unfold F64.ge_int. rewrite compare_int_dyadic; try assumption; try lia.
        2:{ apply (mant_ok_small _ 53); lia. }
        destruct (Z.compare_spec (bound * 2 ^ 31 - M - M) (0 * 2 ^ (- -31))); try reflexivity; lia.
      * rewrite add_dyadic by assumption.
        unfold F64.le_int. rewrite compare_int_dyadic; try assumption; try lia.
        2:{ apply (mant_ok_small _ 53); lia. }
        change (- -31) with 31.
        destruct (Z.compare_spec (bound * 2 ^ 31 - M + M) (bound * 2 ^ 31)); try reflexivity; lia.
    + (* no wall crossed *)
      split; [ | split].
      * split; [assumption | split; [assumption | now exists M]].
      * apply not_lt_ge; [ | assumption]. now apply sub_not_nan.
      * apply not_gt_le; [ | assumption]. now apply add_not_nan.
Qed.

Lemma update_rect_good (W H : Z) (r : Rectangle.t) :
  0 <= W < 2 ^ 22 -> 0 <= H < 2 ^ 22 -> Simulation.good_rect W H r ->
  Simulation.good_rect W H (Simulation.update_rect W H r)
  /\ Simulation.contained W H (Simulation.update_rect W H r) = true.
Proof.
  intros HW HH [Gx Gy].
  pose proof (bounce_contains W _ _ _ HW Gx) as Bx.
  pose proof (bounce_contains H _ _ _ HH Gy) as By.
  cbv zeta in Bx, By.
  rewrite update_rect_bounce. unfold Simulation.contained, Simulation.bounding_box.
  destruct (Simulation.bounce (F64.add (Rectangle.x r) (Rectangle.vx r))
              (F64.div (Rectangle.width r) (F64.of_int 2)) (Rectangle.vx r) W) as [x2 vx2].
  destruct (Simulation.bounce (F64.add (Rectangle.y r) (Rectangle.vy r))
              (F64.div (Rectangle.height r) (F64.of_int 2)) (Rectangle.vy r) H) as [y2 vy2].
  cbn [fst snd] in Bx, By. cbn [Rectangle.x Rectangle.y Rectangle.width Rectangle.height
                               Rectangle.vx Rectangle.vy].
  destruct Bx as (Gx' & Lx & Ux). destruct By as (Gy' & Ly & Uy).
  split; [split; assumption | ].
  rewrite Lx, Ux, Ly, Uy. reflexivity.
Qed.

(** The width and height drawn at construction: [20 + 60 n / 2^32],
    computed exactly, a multiple of [2^-30] in [[20, 80)]. *)
Lemma size_draw (n bound : Z) :
  0 <= n < 2 ^ 32 -> 80 <= bound ->
  exists M, 0 < M <= bound * 2 ^ 30 /\
    F64.add (F64.of_int 20) (F64.mul (F64.dyadic n (-32)) (F64.of_int 60)) = F64.dyadic M (-30).
Proof.
  intros Hn Hb.
  assert (P32 : 2 ^ 32 = 4294967296) by reflexivity.
  assert (P30 : 2 ^ 30 = 1073741824) by reflexivity.
  assert (P53 : 2 ^ 53 = 9007199254740992) by reflexivity.
  exists (5 * 2 ^ 32 + 15 * n). split; [lia | ].
  rewrite !of_int_dyadic.
  rewrite mul_dyadic; try (apply exp_ok_small; lia); try lia;
    try (apply (mant_ok_small _ 53); lia).
  replace (F64.dyadic 20 0) with (F64.dyadic (20 * 2 ^ 32) (-32)) by (rewrite dyadic_rescale by lia; reflexivity).
  rewrite add_dyadic; try (apply exp_ok_small; lia); try (apply (mant_ok_small _ 53); lia).
  replace (20 * 2 ^ 32 + n * 60) with ((5 * 2 ^ 32 + 15 * n) * 2 ^ 2) by lia.
  rewrite dyadic_rescale by lia. reflexivity.
Qed.

Lemma speed_draw (n : Z) :
  0 <= n < 2 ^ 32 ->
  F64.is_finite (F64.add (F64.neg (F64.of_int 5)) (F64.mul (F64.dyadic n (-32)) (F64.of_int 10))) = true.
Proof.
  intros Hn.
  assert (P32 : 2 ^ 32 = 4294967296) by reflexivity.
  assert (P53 : 2 ^ 53 = 9007199254740992) by reflexivity.
  change (F64.neg (F64.of_int 5)) with (F64.dyadic (-5) 0). rewrite of_int_dyadic.
  rewrite mul_dyadic; try (apply exp_ok_small; lia); try lia;
    try (apply (mant_ok_small _ 53); lia).
  replace (F64.dyadic (-5) 0) with (F64.dyadic (-5 * 2 ^ 32) (-32)) by (rewrite dyadic_rescale by lia; reflexivity).
  assert (M1 : F64.mant_ok (-5 * 2 ^ 32)) by (unfold F64.mant_ok; lia).
  rewrite add_dyadic; try (apply exp_ok_small; lia); try assumption;
    try (apply (mant_ok_small _ 53); lia).
  apply dyadic_finite; [unfold F64.mant_ok; lia | apply exp_ok_small; lia].
Qed.

Lemma place_draw (n bound : Z) :
  0 <= n < 2 ^ 32 -> 0 <= bound < 2 ^ 22 ->
  F64.is_nan (F64.mul (F64.dyadic n (-32)) (F64.of_int bound)) = false.
Proof.
  intros Hn Hb.
  assert (P22 : 2 ^ 22 = 4194304) by reflexivity.
  assert (P53 : 2 ^ 53 = 9007199254740992) by reflexivity.
  apply mul_not_nan; apply dyadic_finite;
    try (apply exp_ok_small; lia); apply (mant_ok_small _ 53); lia.
Qed.

Lemma new_rectangle_good (W H i : Z) (rng : SimpleRNG.t) :
  80 <= W < 2 ^ 22 -> 80 <= H < 2 ^ 22 ->
  Simulation.good_rect W H (fst (Simulation.new_rectangle W H i rng)).
Proof.
  intros HW HH. unfold Simulation.new_rectangle.
  pose proof (random_dyadic rng) as E1. pose proof (next_range rng) as R1.
  destruct (SimpleRNG.random rng) as [r1 g1]. cbn [fst] in E1.
  pose proof (random_dyadic g1) as E2. pose proof (next_range g1) as R2.
  destruct (SimpleRNG.random g1) as [r2 g2]. cbn [fst] in E2.
  pose proof (random_dyadic g2) as E3. pose proof (next_range g2) as R3.
  destruct (SimpleRNG.random g2) as [r3 g3]. cbn [fst] in E3.
  pose proof (random_dyadic g3) as E4. pose proof (next_range g3) as R4.
  destruct (SimpleRNG.random g3) as [r4 g4]. cbn [fst] in E4.
  pose proof (random_dyadic g4) as E5. pose proof (next_range g4) as R5.
  destruct (SimpleRNG.random g4) as [r5 g5]. cbn [fst] in E5.
  pose proof (random_dyadic g5) as E6. pose proof (next_range g5) as R6.
  destruct (SimpleRNG.random g5) as [r6 g6]. cbn [fst] in E6.
  subst r1 r2 r3 r4 r5 r6. cbn [fst]. unfold Simulation.good_rect, Simulation.good_axis.
  cbn [Rectangle.x Rectangle.y Rectangle.width Rectangle.height Rectangle.vx Rectangle.vy].
  repeat split;
    try (apply place_draw; lia); try (apply speed_draw; lia);
    apply size_draw; lia.
Qed.

Lemma init_loop_good (W H : Z) (k : nat) :
  80 <= W < 2 ^ 22 -> 80 <= H < 2 ^ 22 ->
  forall (i : Z) (rng : SimpleRNG.t) (rects : list Rectangle.t),
  Forall (Simulation.good_rect W H) rects ->
  Forall (Simulation.good_rect W H) (Simulation.init_loop W H k i rng rects).
Proof.
  intros HW HH. induction k as [ | k IH]; intros i rng rects Hr; cbn [Simulation.init_loop].
  - assumption.
  - pose proof (new_rectangle_good W H i rng HW HH) as G.
    destruct (Simulation.new_rectangle W H i rng) as [rect rng']. cbn [fst] in G.
    apply IH. apply Forall_app. split; [assumption | ]. constructor; [assumption | constructor].
Qed.

Lemma updates_width (k : nat) (s : Simulation.t) :
  Simulation.width (Simulation.updates k s) = Simulation.width s
  /\ Simulation.height (Simulation.updates k s) = Simulation.height s.
Proof.
  revert s. induction k as [ | k IH]; intros s; cbn [Simulation.updates]; [easy | ].
  destruct (IH (Simulation.update s)) as [-> ->]. easy.
Qed.

Lemma update_good (s : Simulation.t) :
  0 <= Simulation.width s < 2 ^ 22 -> 0 <= Simulation.height s < 2 ^ 22 ->
  Forall (Simulation.good_rect (Simulation.width s) (Simulation.height s)) (Simulation.rectangles s) ->
  Forall (fun r => Simulation.good_rect (Simulation.width s) (Simulation.height s) r
                   /\ Simulation.contained (Simulation.width s) (Simulation.height s) r = true)
    (Simulation.rectangles (Simulation.update s)).
Proof.
  intros HW HH G. unfold Simulation.update. cbn [Simulation.rectangles].
  induction G as [ | r rs Hr _ IH]; cbn [map]; constructor; [ | exact IH].
  now apply update_rect_good.
Qed.

Lemma updates_good (k : nat) (s : Simulation.t) :
  0 <= Simulation.width s < 2 ^ 22 -> 0 <= Simulation.height s < 2 ^ 22 ->
  Forall (Simulation.good_rect (Simulation.width s) (Simulation.height s)) (Simulation.rectangles s) ->
  Forall (fun r => Simulation.good_rect (Simulation.width s) (Simulation.height s) r
                   /\ Simulation.contained (Simulation.width s) (Simulation.height s) r = true)
    (Simulation.rectangles (Simulation.updates (S k) s)).
Proof.
  revert s. induction k as [ | k IH]; intros s HW HH G.
  - cbn [Simulation.updates]. now apply update_good.
  - change (Simulation.updates (S (S k)) s) with (Simulation.updates (S k) (Simulation.update s)).
    pose proof (update_good s HW HH G) as G1.
    specialize (IH (Simulation.update s)). cbn [Simulation.update Simulation.width Simulation.height] in IH.
    apply IH; try assumption.
    cbn [Simulation.rectangles]. fold (Simulation.rectangles (Simulation.update s)).
    eapply Forall_impl; [ | exact G1]. cbv beta. intros r [Hg _]. exact Hg.
Qed.


(** * The claims *)




(** C2.  For every state [s] of the generator, [next()] returns
    [(1664525 * s + 1013904223) mod 2^32] and stores it as the new state;
    [random()] returns that integer divided by [2^32], with no rounding
    (its exact value is the rational [n / 2^32]), which lies in [[0, 1)]. *)
Theorem next_random_spec (r : SimpleRNG.t) :
  let n := (1664525 * SimpleRNG.state r + 1013904223) mod 2 ^ 32 in
  SimpleRNG.next r = (n, SimpleRNG.mk n)
  /\ SimpleRNG.random r = (F64.truediv n (2 ^ 32), SimpleRNG.mk n)
  /\ (exists q, F64.to_Q (fst (SimpleRNG.random r)) = Some q /\ Qeq q (Qmake n (2 ^ 32)))
  /\ F64.ge_int (fst (SimpleRNG.random r)) 0 = true
  /\ F64.lt_int (fst (SimpleRNG.random r)) 1 = true.
Proof.
  intros n.
  assert (Hnext : SimpleRNG.next r = (n, SimpleRNG.mk n)) by reflexivity.
  assert (Hn : 0 <= n < 2 ^ 32) by (apply Z.mod_pos_bound; lia).
  assert (Hr : fst (SimpleRNG.random r) = F64.dyadic n (-32)).
  { rewrite random_dyadic, Hnext. reflexivity. }
  assert (Mn : F64.mant_ok n) by (apply (mant_ok_small n 32); lia).
  assert (E32 : F64.exp_ok (-32)) by (apply exp_ok_small; lia).
  split; [exact Hnext | split; [reflexivity | ] ].
  rewrite Hr. split; [ | split].
  - destruct (to_Q_dyadic n (-32) Mn E32 ltac:(lia)) as (q & Hq & Hv).
    exists q. split; [exact Hq | exact Hv].
  - unfold F64.ge_int. rewrite compare_int_dyadic by (assumption || lia).
    destruct (Z.compare_spec n (0 * 2 ^ (- -32))); try reflexivity. lia.
  - unfold F64.lt_int. rewrite compare_int_dyadic by (assumption || lia).
    change (1 * 2 ^ (- -32)) with (2 ^ 32).
    destruct (Z.compare_spec n (2 ^ 32)); try reflexivity; lia.
Qed.





(** C5.  Two generators in the same state, in particular two instances
    constructed from the same seed, return the same sequence under
    repeated [next()] calls and stay in the same state; and for seed 42
    the first value of [next()] is [(1664525 * 42 + 1013904223) mod 2^32],
    which is 1083814273. *)
Theorem rng_deterministic (r1 r2 : SimpleRNG.t) (k : nat) :
  SimpleRNG.state r1 = SimpleRNG.state r2 ->
  SimpleRNG.outputs k r1 = SimpleRNG.outputs k r2
  /\ SimpleRNG.state (SimpleRNG.after k r1) = SimpleRNG.state (SimpleRNG.after k r2)
  /\ fst (SimpleRNG.next (SimpleRNG.init 42)) = (1664525 * 42 + 1013904223) mod 2 ^ 32
  /\ fst (SimpleRNG.next (SimpleRNG.init 42)) = 1083814273.
Proof.
  intros E. destruct r1 as [s1], r2 as [s2]. cbn [SimpleRNG.state] in E. subst s2.
  repeat split; reflexivity.
Qed.

(** Two instances of [SimpleRNG(42)], three calls each. *)
Lemma rng_deterministic_witness :
  SimpleRNG.state (SimpleRNG.init 42) = SimpleRNG.state (SimpleRNG.init 42)
  /\ SimpleRNG.outputs 3 (SimpleRNG.init 42) = SimpleRNG.outputs 3 (SimpleRNG.init 42)
  /\ SimpleRNG.state (SimpleRNG.after 3 (SimpleRNG.init 42))
     = SimpleRNG.state (SimpleRNG.after 3 (SimpleRNG.init 42))
  /\ fst (SimpleRNG.next (SimpleRNG.init 42)) = (1664525 * 42 + 1013904223) mod 2 ^ 32
  /\ fst (SimpleRNG.next (SimpleRNG.init 42)) = 1083814273.
Proof.
  split; [reflexivity | ].
  apply (rng_deterministic (SimpleRNG.init 42) (SimpleRNG.init 42) 3). reflexivity.
Defined.

(** C6.  [get_bounding_boxes()] returns, in the order of the rectangle
    list, the pair of the min corner [(x - width/2, y - height/2)] and the
    max corner [(x + width/2, y + height/2)] of each rectangle; a rectangle
    of centre (100, 100), width 40 and height 20 yields the min corner
    (80, 90) and the max corner (120, 110). *)
Theorem bounding_boxes (s : Simulation.t) :
  Simulation.get_bounding_boxes s
  = map (fun r =>
           let half_w := F64.div (Rectangle.width r) (F64.of_int 2) in
           let half_h := F64.div (Rectangle.height r) (F64.of_int 2) in
           ((F64.sub (Rectangle.x r) half_w, F64.sub (Rectangle.y r) half_h),
            (F64.add (Rectangle.x r) half_w, F64.add (Rectangle.y r) half_h)))
        (Simulation.rectangles s)
  /\ forall (W H i : Z) (vx vy : F64.float),
       Simulation.get_bounding_boxes
         (Simulation.mk W H
            [Rectangle.mk i (F64.of_int 100) (F64.of_int 100) (F64.of_int 40) (F64.of_int 20) vx vy])
       = [((F64.of_int 80, F64.of_int 90), (F64.of_int 120, F64.of_int 110))].
Proof.
  split; [reflexivity | ]. intros W H i vx vy. vm_compute. reflexivity.
Qed.

(** C7.  [update] keeps the length of the rectangle list, and the
    rectangle at each index keeps its place, its identifier, its width and
    its height; its [vx] is unchanged unless a side wall is hit in that
    step (one of the two horizontal tests holds), in which case it is
    negated, and likewise its [vy] with the top and bottom walls. *)
Theorem update_frame (s : Simulation.t) (i : nat) (r : Rectangle.t) :
  nth_error (Simulation.rectangles s) i = Some r ->
  length (Simulation.rectangles (Simulation.update s)) = length (Simulation.rectangles s)
  /\ exists r',
       nth_error (Simulation.rectangles (Simulation.update s)) i = Some r'
       /\ Rectangle.id r' = Rectangle.id r
       /\ Rectangle.width r' = Rectangle.width r
       /\ Rectangle.height r' = Rectangle.height r
       /\ Rectangle.vx r'
          = (if Simulation.hits_side (Simulation.width s) r
             then F64.neg (Rectangle.vx r) else Rectangle.vx r)
       /\ Rectangle.vy r'
          = (if Simulation.hits_top_bottom (Simulation.height s) r
             then F64.neg (Rectangle.vy r) else Rectangle.vy r).
Proof.
  intros Hi. unfold Simulation.update. cbn [Simulation.rectangles].
  split; [apply length_map | ].
  exists (Simulation.update_rect (Simulation.width s) (Simulation.height s) r).
  split; [now apply map_nth_error | ].
  apply update_rect_fields.
Qed.

(** The first of [two_boxes], in the middle of the field. *)
Lemma update_frame_witness :
  nth_error (Simulation.rectangles two_boxes) 0 = Some first_box
  /\ length (Simulation.rectangles (Simulation.update two_boxes))
     = length (Simulation.rectangles two_boxes)
  /\ exists r',
       nth_error (Simulation.rectangles (Simulation.update two_boxes)) 0 = Some r'
       /\ Rectangle.id r' = Rectangle.id first_box
       /\ Rectangle.width r' = Rectangle.width first_box
       /\ Rectangle.height r' = Rectangle.height first_box
       /\ Rectangle.vx r'
          = (if Simulation.hits_side (Simulation.width two_boxes) first_box
             then F64.neg (Rectangle.vx first_box) else Rectangle.vx first_box)
       /\ Rectangle.vy r'
          = (if Simulation.hits_top_bottom (Simulation.height two_boxes) first_box
             then F64.neg (Rectangle.vy first_box) else Rectangle.vy first_box).
Proof.
  split; [reflexivity | ].
  apply (update_frame two_boxes 0%nat first_box). reflexivity.
Defined.

(** C8.  For every simulation constructed with rectangle count [n] and
    after any number of [update] calls, [get_ground_truth_ids()] returns
    the list [1, 2, ..., n]. *)
Theorem ground_truth_ids (W H n seed : Z) (k : nat) :
  Simulation.get_ground_truth_ids (Simulation.updates k (Simulation.init W H n seed))
  = map Z.of_nat (seq 1 (Z.to_nat n)).
Proof.
  rewrite updates_ids. unfold Simulation.get_ground_truth_ids.
  rewrite init_spec.
  rewrite map_map. cbn [Simulation.spec_rectangle Rectangle.id].
  rewrite <- seq_shift, map_map. apply map_ext. intros i. lia.
Qed.

(** C9.  For every integer seed, negative or beyond [2^32] included, the
    constructor stores [seed mod 2^32]; the state is in [[0, 2^32)] after
    construction and after every [next()] call; and [SimpleRNG(seed)] and
    [SimpleRNG(seed mod 2^32)] produce the same sequence. *)
Theorem seed_reduced (seed : Z) (k : nat) :
  SimpleRNG.state (SimpleRNG.init seed) = seed mod 2 ^ 32
  /\ 0 <= SimpleRNG.state (SimpleRNG.after k (SimpleRNG.init seed)) < 2 ^ 32
  /\ SimpleRNG.outputs k (SimpleRNG.init seed)
     = SimpleRNG.outputs k (SimpleRNG.init (seed mod 2 ^ 32)).
Proof.
  assert (E : SimpleRNG.state (SimpleRNG.init seed) = seed mod 2 ^ 32) by apply land_mask.
  split; [exact E | split].
  - apply after_state_range. rewrite E. apply Z.mod_pos_bound. lia.
  - f_equal. unfold SimpleRNG.init. f_equal. rewrite !land_mask.
    symmetry. apply Z.mod_mod. lia.
Qed.

(** C10.  For every rectangle, the absolute values of [vx] and [vy] are
    the same after any number of [update] calls as before: a wall bounce
    only flips a sign. *)
Theorem speed_preserved (k : nat) (s : Simulation.t) (i : nat) (r : Rectangle.t) :
  nth_error (Simulation.rectangles s) i = Some r ->
  exists r',
    nth_error (Simulation.rectangles (Simulation.updates k s)) i = Some r'
    /\ F64.abs (Rectangle.vx r') = F64.abs (Rectangle.vx r)
    /\ F64.abs (Rectangle.vy r') = F64.abs (Rectangle.vy r).
Proof.
  revert s r. induction k as [ | k IH]; intros s r Hi; cbn [Simulation.updates].
  - exists r. easy.
  - destruct (IH (Simulation.update s)
                (Simulation.update_rect (Simulation.width s) (Simulation.height s) r))
      as (r' & Hr' & Ex & Ey).
    { unfold Simulation.update. cbn [Simulation.rectangles]. now apply map_nth_error. }
    exists r'. split; [exact Hr' | ].
    destruct (update_rect_speed (Simulation.width s) (Simulation.height s) r) as [Fx Fy].
    rewrite Ex, Ey, Fx, Fy. easy.
Qed.

(** The second of [two_boxes], which bounces off two walls in five
    frames. *)
Lemma speed_preserved_witness :
  nth_error (Simulation.rectangles two_boxes) 1 = Some second_box
  /\ exists r',
       nth_error (Simulation.rectangles (Simulation.updates 5 two_boxes)) 1 = Some r'
       /\ F64.abs (Rectangle.vx r') = F64.abs (Rectangle.vx second_box)
       /\ F64.abs (Rectangle.vy r') = F64.abs (Rectangle.vy second_box).
Proof.
  split; [reflexivity | ].
  apply (speed_preserved 5 two_boxes 1 second_box).
  reflexivity.
Defined.


(** * Further properties *)

Lemma next_prev (n : Z) :
  0 <= n < 2 ^ 32 -> fst (SimpleRNG.next (SimpleRNG.mk (lcg_prev n))) = n.
Proof.
  intros Hn. unfold SimpleRNG.next, lcg_prev. cbn [fst SimpleRNG.state].
  rewrite shiftl_1_32.
  rewrite Z.add_mod, Z.mul_mod_idemp_r, <- Z.add_mod by lia.
  replace (1664525 * (4276115653 * (n - 1013904223)) + 1013904223)
    with (n + (1657219 * (n - 1013904223)) * 2 ^ 32)
    by (change (2 ^ 32) with 4294967296; lia).
  rewrite Z.mod_add by lia. apply Z.mod_small. lia.
Qed.

Lemma prev_next (s : Z) :
  0 <= s < 2 ^ 32 -> lcg_prev (fst (SimpleRNG.next (SimpleRNG.mk s))) = s.
Proof.
  intros Hs. unfold SimpleRNG.next, lcg_prev. cbn [fst SimpleRNG.state].
  rewrite shiftl_1_32.
  rewrite <- Z.mul_mod_idemp_r by lia. rewrite Zminus_mod_idemp_l.
  rewrite Z.mul_mod_idemp_r by lia.
  replace (4276115653 * (1664525 * s + 1013904223 - 1013904223))
    with (s + 1657219 * s * 2 ^ 32)
    by (change (2 ^ 32) with 4294967296; lia).
  rewrite Z.mod_add by lia. apply Z.mod_small. lia.
Qed.

Lemma pow_succ_nat (a : Z) (k : nat) : a ^ Z.of_nat (S k) = a * a ^ Z.of_nat k.
Proof. rewrite Nat2Z.inj_succ. apply Z.pow_succ_r. lia. Qed.

Lemma after_closed_form (k : nat) (r : SimpleRNG.t) :
  0 <= SimpleRNG.state r < 2 ^ 32 ->
  SimpleRNG.state (SimpleRNG.after k r)
  = (1664525 ^ Z.of_nat k * SimpleRNG.state r + 1013904223 * geom k) mod 2 ^ 32.
Proof.
  revert r. induction k as [ | k IH]; intros r Hr.
  - cbn [SimpleRNG.after geom Z.of_nat]. rewrite Z.pow_0_r, Z.mul_0_r, Z.add_0_r, Z.mul_1_l.
    symmetry. now apply Z.mod_small.
  - cbn [SimpleRNG.after]. rewrite IH by (rewrite next_state; apply next_range).
    unfold SimpleRNG.next. cbn [snd SimpleRNG.state geom]. rewrite shiftl_1_32.
    rewrite pow_succ_nat.
    rewrite Z.add_mod, Z.mul_mod_idemp_r, <- Z.add_mod by lia.
    f_equal. lia.
Qed.

Lemma pow_mod4 (k : nat) : 1664525 ^ Z.of_nat k mod 4 = 1.
Proof.
  induction k as [ | k IH]; [reflexivity | ].
  rewrite pow_succ_nat, Z.mul_mod, IH by lia. reflexivity.
Qed.

Lemma geom_add (p q : nat) :
  geom (p + q) = geom p + 1664525 ^ Z.of_nat p * geom q.
Proof.
  induction q as [ | q IH].
  - rewrite Nat.add_0_r. cbn [geom]. lia.
  - rewrite Nat.add_succ_r. cbn [geom]. rewrite IH, Nat2Z.inj_add, Z.pow_add_r by lia. lia.
Qed.

Lemma geom_double (p : nat) :
  geom (p + p) = geom p * (1 + 1664525 ^ Z.of_nat p).
Proof. rewrite geom_add. lia. Qed.

Lemma geom_parity (k : nat) : geom k mod 2 = Z.of_nat k mod 2.
Proof.
  induction k as [ | k IH]; [reflexivity | ].
  cbn [geom]. rewrite Nat2Z.inj_succ.
  pose proof (pow_mod4 k) as H4.
  assert (H2 : 1664525 ^ Z.of_nat k mod 2 = 1).
  { pose proof (Z.div_mod (1664525 ^ Z.of_nat k) 4 ltac:(lia)) as E. rewrite H4 in E.
    rewrite E. replace (4 * (1664525 ^ Z.of_nat k / 4) + 1)
      with (1 + (2 * (1664525 ^ Z.of_nat k / 4)) * 2) by lia.
    rewrite Z.mod_add by lia. reflexivity. }
  rewrite Z.add_mod, IH, H2 by lia.
  unfold Z.succ. rewrite (Z.add_mod (Z.of_nat k) 1) by lia. reflexivity.
Qed.

Lemma pow2_divide_odd (j : nat) (u x : Z) :
  u mod 2 = 1 -> (2 ^ Z.of_nat j | u * x) -> (2 ^ Z.of_nat j | x).
Proof.
  intros Hu. revert x. induction j as [ | j IH]; intros x H.
  - cbn. apply Z.divide_1_l.
  - rewrite pow_succ_nat in *.
    assert (Hx : x mod 2 = 0).
    { destruct H as [t Ht].
      assert (E : (u * x) mod 2 = 0).
      { rewrite Ht. replace (t * (2 * 2 ^ Z.of_nat j)) with (t * 2 ^ Z.of_nat j * 2) by lia.
        apply Z.mod_mul. lia. }
      rewrite Z.mul_mod, Hu in E by lia. rewrite Z.mul_1_l, Z.mod_mod in E by lia. exact E. }
    apply Z.mod_divide in Hx; [ | lia]. destruct Hx as [x' ->].
    replace (x' * 2) with (2 * x') by lia. apply Z.mul_divide_mono_l.
    apply IH. destruct H as [t Ht]. exists t.
    assert (0 < 2 ^ Z.of_nat j) by (apply Z.pow_pos_nonneg; lia). nia.
Qed.

Lemma pow2_divide_geom (k : nat) :
  forall j : nat, (2 ^ Z.of_nat j | geom k) <-> (2 ^ Z.of_nat j | Z.of_nat k).
Proof.
  induction k as [k IH] using lt_wf_ind. intros j.
  destruct j as [ | j]; [cbn; split; intros _; apply Z.divide_1_l | ].
  destruct (Nat.Even_or_Odd k) as [[p ->] | [p ->]].
  - destruct p as [ | p]; [cbn [Nat.mul geom]; split; intros _; apply Z.divide_0_r | ].
    replace (2 * S p)%nat with (S p + S p)%nat by lia.
    rewrite geom_double.
    pose proof (pow_mod4 (S p)) as H4.
    pose proof (Z.div_mod (1664525 ^ Z.of_nat (S p)) 4 ltac:(lia)) as E. rewrite H4 in E.
    set (t := 1664525 ^ Z.of_nat (S p) / 4) in *.
    replace (1 + 1664525 ^ Z.of_nat (S p)) with (2 * (2 * t + 1)) by lia.
    rewrite pow_succ_nat.
    replace (geom (S p) * (2 * (2 * t + 1))) with (2 * ((2 * t + 1) * geom (S p))) by lia.
    replace (Z.of_nat (S p + S p)) with (2 * Z.of_nat (S p)) by lia.
    rewrite !Z.mul_divide_cancel_l by lia.
    rewrite <- (IH (S p) ltac:(lia) j).
    split; intros H.
    + apply (pow2_divide_odd j (2 * t + 1)); [ | exact H].
      replace (2 * t + 1) with (1 + t * 2) by lia. rewrite Z.mod_add by lia. reflexivity.
    + now apply Z.divide_mul_r.
  - assert (Hk : Z.of_nat (2 * p + 1) mod 2 = 1).
    { replace (Z.of_nat (2 * p + 1)) with (1 + Z.of_nat p * 2) by lia.
      rewrite Z.mod_add by lia. reflexivity. }
    pose proof (geom_parity (2 * p + 1)) as Hg. rewrite Hk in Hg.
    rewrite pow_succ_nat.
    assert (Odd_no : forall x, x mod 2 = 1 -> ~ (2 * 2 ^ Z.of_nat j | x)).
    { intros x Hx [t Ht]. rewrite Ht in Hx.
      replace (t * (2 * 2 ^ Z.of_nat j)) with (t * 2 ^ Z.of_nat j * 2) in Hx by lia.
      rewrite Z.mod_mul in Hx by lia. discriminate. }
    split; intros H; exfalso.
    + exact (Odd_no _ Hg H).
    + exact (Odd_no _ Hk H).
Qed.

Lemma return_iff (k : nat) (s : Z) :
  0 <= s < 2 ^ 32 ->
  (1664525 ^ Z.of_nat k * s + 1013904223 * geom k) mod 2 ^ 32 = s
  <-> (2 ^ 32 | Z.of_nat k).
Proof.
  intros Hs.
  assert (Hgeo : 1664525 ^ Z.of_nat k - 1 = 1664524 * geom k).
  { induction k as [ | k IH]; [reflexivity | ].
    rewrite pow_succ_nat. cbn [geom]. lia. }
  change (2 ^ 32) with (2 ^ Z.of_nat 32) at 2.
  rewrite <- pow2_divide_geom. change (2 ^ Z.of_nat 32) with (2 ^ 32).
  assert (E : 1664525 ^ Z.of_nat k * s + 1013904223 * geom k
              = s + (1664524 * s + 1013904223) * geom k) by lia.
  rewrite E.
  assert (Hodd : (1664524 * s + 1013904223) mod 2 = 1).
  { replace (1664524 * s + 1013904223) with (1 + (832262 * s + 506952111) * 2) by lia.
    rewrite Z.mod_add by lia. reflexivity. }
  split; intros H.
  - apply (pow2_divide_odd 32 (1664524 * s + 1013904223)); [exact Hodd | ].
    change (2 ^ Z.of_nat 32) with (2 ^ 32).
    apply Z.mod_divide; [lia | ].
    pose proof (Z.div_mod (s + (1664524 * s + 1013904223) * geom k) (2 ^ 32) ltac:(lia)) as D.
    rewrite H in D.
    replace ((1664524 * s + 1013904223) * geom k)
      with (((s + (1664524 * s + 1013904223) * geom k) / 2 ^ 32) * 2 ^ 32) by lia.
    apply Z.mod_mul. lia.
  - destruct H as [t Ht]. rewrite Ht.
    replace (s + (1664524 * s + 1013904223) * (t * 2 ^ 32))
      with (s + ((1664524 * s + 1013904223) * t) * 2 ^ 32) by lia.
    rewrite Z.mod_add by lia. now apply Z.mod_small.
Qed.

Theorem full_period (r : SimpleRNG.t) (k : nat) :
  0 <= SimpleRNG.state r < 2 ^ 32 ->
  SimpleRNG.state (SimpleRNG.after k r) = SimpleRNG.state r <-> (2 ^ 32 | Z.of_nat k).
Proof.
  intros Hr. rewrite after_closed_form by assumption. now apply return_iff.
Qed.

Lemma pow2_32 : 2 ^ 32 = 4294967296. Proof. reflexivity. Qed.

Lemma pow2_53 : 2 ^ 53 = 9007199254740992. Proof. reflexivity. Qed.

Lemma ge_int_dyadic (m e n : Z) :
  F64.mant_ok m -> F64.exp_ok e -> e <= 0 -> n * 2 ^ (- e) <= m ->
  F64.ge_int (F64.dyadic m e) n = true.
Proof.
  intros Hm He Hle H. unfold F64.ge_int. rewrite compare_int_dyadic by assumption.
  destruct (Z.compare_spec m (n * 2 ^ (- e))); try reflexivity; lia.
Qed.

Lemma lt_int_dyadic (m e n : Z) :
  F64.mant_ok m -> F64.exp_ok e -> e <= 0 -> m < n * 2 ^ (- e) ->
  F64.lt_int (F64.dyadic m e) n = true.
Proof.
  intros Hm He Hle H. unfold F64.lt_int. rewrite compare_int_dyadic by assumption.
  destruct (Z.compare_spec m (n * 2 ^ (- e))); try reflexivity; lia.
Qed.

Lemma size_draw_value (n : Z) :
  0 <= n < 2 ^ 32 ->
  F64.add (F64.of_int 20) (F64.mul (F64.dyadic n (-32)) (F64.of_int 60))
  = F64.dyadic (20 * 2 ^ 32 + 60 * n) (-32).
Proof.
  intros Hn. pose proof pow2_32. pose proof pow2_53.
  rewrite !of_int_dyadic.
  rewrite mul_dyadic; try (apply exp_ok_small; lia); try lia;
    try (apply (mant_ok_small _ 53); lia).
  replace (F64.dyadic 20 0) with (F64.dyadic (20 * 2 ^ 32) (-32))
    by (rewrite dyadic_rescale by lia; reflexivity).
  rewrite add_dyadic; try (apply exp_ok_small; lia); try (apply (mant_ok_small _ 53); lia).
  f_equal. lia.
Qed.

Lemma speed_draw_value (n : Z) :
  0 <= n < 2 ^ 32 ->
  F64.add (F64.neg (F64.of_int 5)) (F64.mul (F64.dyadic n (-32)) (F64.of_int 10))
  = F64.dyadic (-5 * 2 ^ 32 + 10 * n) (-32).
Proof.
  intros Hn. pose proof pow2_32. pose proof pow2_53.
  change (F64.neg (F64.of_int 5)) with (F64.dyadic (-5) 0). rewrite of_int_dyadic.
  rewrite mul_dyadic; try (apply exp_ok_small; lia); try lia;
    try (apply (mant_ok_small _ 53); lia).
  replace (F64.dyadic (-5) 0) with (F64.dyadic (-5 * 2 ^ 32) (-32))
    by (rewrite dyadic_rescale by lia; reflexivity).
  assert (M1 : F64.mant_ok (-5 * 2 ^ 32)) by (unfold F64.mant_ok; lia).
  rewrite add_dyadic; try (apply exp_ok_small; lia); try assumption;
    try (apply (mant_ok_small _ 53); lia).
  f_equal. lia.
Qed.

Lemma place_draw_value (n bound : Z) :
  0 <= n < 2 ^ 32 -> 0 <= bound <= 2 ^ 21 ->
  F64.mul (F64.dyadic n (-32)) (F64.of_int bound) = F64.dyadic (n * bound) (-32).
Proof.
  intros Hn Hb. pose proof pow2_32. pose proof pow2_53.
  assert (2 ^ 21 = 2097152) by reflexivity.
  rewrite of_int_dyadic.
  rewrite mul_dyadic; try (apply exp_ok_small; lia); try lia;
    try (apply (mant_ok_small _ 53); lia).
  reflexivity.
Qed.

Lemma size_draw_ok (n : Z) :
  0 <= n < 2 ^ 32 ->
  size_ok (F64.add (F64.of_int 20) (F64.mul (F64.dyadic n (-32)) (F64.of_int 60))) = true.
Proof.
  intros Hn. pose proof pow2_32. pose proof pow2_53. rewrite size_draw_value by assumption.
  assert (M : F64.mant_ok (20 * 2 ^ 32 + 60 * n)) by (apply (mant_ok_small _ 53); lia).
  assert (E : F64.exp_ok (-32)) by (apply exp_ok_small; lia).
  unfold size_ok. rewrite ge_int_dyadic, lt_int_dyadic; try assumption; try reflexivity;
    change (- -32) with 32; lia.
Qed.

Lemma speed_draw_ok (n : Z) :
  0 <= n < 2 ^ 32 ->
  F64.ge_int (F64.add (F64.neg (F64.of_int 5)) (F64.mul (F64.dyadic n (-32)) (F64.of_int 10))) (-5) = true
  /\ F64.lt_int (F64.add (F64.neg (F64.of_int 5)) (F64.mul (F64.dyadic n (-32)) (F64.of_int 10))) 5 = true.
Proof.
  intros Hn. pose proof pow2_32. pose proof pow2_53. rewrite speed_draw_value by assumption.
  assert (M : F64.mant_ok (-5 * 2 ^ 32 + 10 * n)) by (unfold F64.mant_ok; lia).
  assert (E : F64.exp_ok (-32)) by (apply exp_ok_small; lia).
  rewrite ge_int_dyadic, lt_int_dyadic; try assumption; try (split; reflexivity);
    change (- -32) with 32; lia.
Qed.

Lemma place_draw_ok (n bound : Z) :
  0 <= n < 2 ^ 32 -> 0 < bound <= 2 ^ 21 ->
  F64.ge_int (F64.mul (F64.dyadic n (-32)) (F64.of_int bound)) 0 = true
  /\ F64.lt_int (F64.mul (F64.dyadic n (-32)) (F64.of_int bound)) bound = true.
Proof.
  intros Hn Hb. pose proof pow2_32. pose proof pow2_53.
  assert (2 ^ 21 = 2097152) by reflexivity.
  rewrite place_draw_value by lia.
  assert (M : F64.mant_ok (n * bound)) by (apply (mant_ok_small _ 53); nia).
  assert (E : F64.exp_ok (-32)) by (apply exp_ok_small; lia).
  rewrite ge_int_dyadic, lt_int_dyadic; try assumption; try (split; reflexivity);
    change (- -32) with 32; nia.
Qed.

Lemma lt_le_int (x : F64.float) (n : Z) : F64.lt_int x n = true -> F64.le_int x n = true.
Proof.
  unfold F64.lt_int, F64.le_int. destruct (F64.compare_int x n) as [[ | | ] | ]; easy.
Qed.

Lemma spec_rectangle_in_range (W H seed : Z) (i : nat) :
  0 < W <= 2 ^ 21 -> 0 < H <= 2 ^ 21 ->
  drawn_in_range W H (Simulation.spec_rectangle W H seed i) = true.
Proof.
  intros HW HH. unfold drawn_in_range, Simulation.spec_rectangle, Simulation.draw.
  cbn [Rectangle.x Rectangle.y Rectangle.width Rectangle.height Rectangle.vx Rectangle.vy].
  rewrite !random_dyadic.
  repeat match goal with
  | |- context [SimpleRNG.next ?g] =>
      let n := fresh "n" in let R := fresh "R" in
      pose proof (next_range g) as R; set (n := fst (SimpleRNG.next g)) in *; clearbody n
  end.
  repeat match goal with
  | H : 0 <= ?n < 2 ^ 32 |- _ =>
      lazymatch goal with
      | |- context [F64.mul (F64.dyadic n (-32)) (F64.of_int 60)] =>
          pose proof (size_draw_ok n H) as S; unfold size_ok in S;
          apply andb_prop in S; destruct S as [-> ->]; clear H
      | |- context [F64.mul (F64.dyadic n (-32)) (F64.of_int 10)] =>
          destruct (speed_draw_ok n H) as [-> ->]; clear H
      | |- context [F64.mul (F64.dyadic n (-32)) (F64.of_int W)] =>
          destruct (place_draw_ok n W H HW) as [-> ->]; clear H
      | |- context [F64.mul (F64.dyadic n (-32)) (F64.of_int ?B)] =>
          destruct (place_draw_ok n B H ltac:(assumption)) as [-> ->]; clear H
      end
  end.
  reflexivity.
Qed.

Lemma cond_Zopp_negb (s : bool) (m : Z) : cond_Zopp (negb s) m = - cond_Zopp s m.
Proof. destruct s; cbn; lia. Qed.

Lemma compare_opp_l (a b : Z) : (- a ?= b) = CompOpp (a ?= - b).
Proof.
  destruct (Z.compare_spec (- a) b), (Z.compare_spec a (- b)); cbn; try reflexivity; lia.
Qed.

Lemma compare_int_neg (x : F64.float) (n : Z) :
  F64.compare_int (F64.neg x) n = option_map CompOpp (F64.compare_int x (- n)).
Proof.
  destruct x as [s | s | | s m e]; cbn [F64.neg SFopp F64.compare_int option_map].
  - f_equal. rewrite <- (compare_opp_l 0 n). reflexivity.
  - destruct s; reflexivity.
  - reflexivity.
  - cbv zeta. f_equal. rewrite cond_Zopp_negb.
    destruct e as [ | p | p].
    + rewrite Z.mul_opp_l. apply compare_opp_l.
    + rewrite Z.mul_opp_l. apply compare_opp_l.
    + rewrite Z.mul_opp_l. apply compare_opp_l.
Qed.

Lemma speed_ok_neg (v : F64.float) : speed_ok v = true -> speed_ok (F64.neg v) = true.
Proof.
  unfold speed_ok, F64.ge_int, F64.le_int. rewrite !compare_int_neg.
  change (Z.opp (-5)) with 5. change (Z.opp 5) with (-5).
  destruct (F64.compare_int v 5) as [[ | | ] | ], (F64.compare_int v (-5)) as [[ | | ] | ];
    cbn; easy.
Qed.

Lemma update_rect_keeps (W H : Z) (r : Rectangle.t) :
  sizes_and_speeds_ok r = true -> sizes_and_speeds_ok (Simulation.update_rect W H r) = true.
Proof.
  unfold sizes_and_speeds_ok. intros Hr.
  destruct (update_rect_fields W H r) as (_ & -> & -> & -> & ->).
  apply andb_prop in Hr. destruct Hr as [Hr Hvy].
  apply andb_prop in Hr. destruct Hr as [Hr Hvx].
  rewrite Hr. cbn [andb].
  destruct (Simulation.hits_side W r), (Simulation.hits_top_bottom H r);
    rewrite ?speed_ok_neg by assumption; rewrite ?Hvx, ?Hvy; reflexivity.
Qed.

Lemma spec_rectangle_keeps (W H seed : Z) (i : nat) :
  sizes_and_speeds_ok (Simulation.spec_rectangle W H seed i) = true.
Proof.
  unfold sizes_and_speeds_ok, Simulation.spec_rectangle, Simulation.draw.
  cbn [Rectangle.x Rectangle.y Rectangle.width Rectangle.height Rectangle.vx Rectangle.vy].
  rewrite !random_dyadic.
  rewrite !size_draw_ok by apply next_range. cbn [andb].
  unfold speed_ok.
  repeat match goal with
  | |- context [F64.mul (F64.dyadic (fst (SimpleRNG.next ?g)) (-32)) (F64.of_int 10)] =>
      let A := fresh "A" in let B := fresh "B" in
      destruct (speed_draw_ok _ (next_range g)) as [A B];
      apply lt_le_int in B; rewrite A, B; clear A B
  end.
  reflexivity.
Qed.

Lemma updates_Forall (P : Rectangle.t -> Prop) (k : nat) (s : Simulation.t) :
  (forall W H r, P r -> P (Simulation.update_rect W H r)) ->
  Forall P (Simulation.rectangles s) ->
  Forall P (Simulation.rectangles (Simulation.updates k s)).
Proof.
  intros Hstep. revert s. induction k as [ | k IH]; intros s Hs; cbn [Simulation.updates].
  - exact Hs.
  - apply IH. unfold Simulation.update. cbn [Simulation.rectangles].
    apply Forall_map. eapply Forall_impl; [ | exact Hs]. intros r. apply Hstep.
Qed.

Lemma init_Forall (P : Rectangle.t -> Prop) (W H n seed : Z) :
  (forall i, P (Simulation.spec_rectangle W H seed i)) ->
  Forall P (Simulation.rectangles (Simulation.init W H n seed)).
Proof.
  intros HP. rewrite init_spec. apply Forall_map. apply Forall_forall. intros i _. apply HP.
Qed.

Lemma NoDup_map_inj {A B} (f : A -> B) (l : list A) :
  (forall a b, f a = f b -> a = b) -> NoDup l -> NoDup (map f l).
Proof.
  intros Hf Hl. induction Hl as [ | a l Ha Hl IH]; cbn [map]; constructor; [ | exact IH].
  intros Hin. apply in_map_iff in Hin. destruct Hin as (b & Hb & Hin).
  apply Hf in Hb. subst b. contradiction.
Qed.

Lemma init_ids (W H n seed : Z) :
  Simulation.get_ground_truth_ids (Simulation.init W H n seed)
  = map Z.of_nat (seq 1 (Z.to_nat n)).
Proof.
  unfold Simulation.get_ground_truth_ids. rewrite init_spec.
  rewrite map_map. cbn [Simulation.spec_rectangle Rectangle.id].
  rewrite <- seq_shift, map_map. apply map_ext. intros i. lia.
Qed.

Lemma eq_int_dyadic (m e n : Z) :
  F64.mant_ok m -> F64.exp_ok e -> e <= 0 -> m = n * 2 ^ (- e) ->
  F64.eq_int (F64.dyadic m e) n = true.
Proof.
  intros Hm He Hle H. unfold F64.eq_int. rewrite compare_int_dyadic by assumption.
  rewrite H, Z.compare_refl. reflexivity.
Qed.

Lemma bounce_exact (bound : Z) (p v size : F64.float) :
  0 <= bound < 2 ^ 22 -> Simulation.good_axis bound p v size ->
  let half := F64.div size (F64.of_int 2) in
  let p1 := F64.add p v in
  let pv := Simulation.bounce p1 half v bound in
  if F64.lt_int (F64.sub p1 half) 0
  then fst pv = half /\ snd pv = F64.neg v
       /\ F64.eq_int (F64.sub (fst pv) half) 0 = true
  else if F64.gt_int (F64.add p1 half) bound
       then fst pv = F64.sub (F64.of_int bound) half /\ snd pv = F64.neg v
            /\ F64.eq_int (F64.add (fst pv) half) bound = true
       else fst pv = p1 /\ snd pv = v.
Proof.
  intros Hb (Hp & Hv & M & HM & Hsize). cbv zeta.
  assert (P30 : 2 ^ 30 = 1073741824) by reflexivity.
  assert (P31 : 2 ^ 31 = 2147483648) by reflexivity.
  assert (P22 : 2 ^ 22 = 4194304) by reflexivity.
  assert (P52 : 2 ^ 52 = 4503599627370496) by reflexivity.
  pose proof pow2_53 as pow2_53.
  assert (Hhalf : F64.div size (F64.of_int 2) = F64.dyadic M (-31)).
  { rewrite Hsize. apply half_dyadic. lia. }
  rewrite Hhalf.
  assert (E31 : F64.exp_ok (-31)) by (apply exp_ok_small; lia).
  assert (MM : F64.mant_ok M) by (apply (mant_ok_small M 52); lia).
  assert (Fh : F64.is_finite (F64.dyadic M (-31)) = true) by now apply dyadic_finite.
  unfold Simulation.bounce.
  destruct (F64.lt_int (F64.sub (F64.add p v) (F64.dyadic M (-31))) 0) eqn:Lo; cbn [fst snd].
  - repeat split. now rewrite sub_self.
  - destruct (F64.gt_int (F64.add (F64.add p v) (F64.dyadic M (-31))) bound) eqn:Hi; cbn [fst snd].
    + repeat split.
      assert (MB : F64.mant_ok (bound * 2 ^ 31)) by (apply (mant_ok_small _ 53); lia).
      rewrite bound_dyadic, sub_dyadic by assumption.
      rewrite add_dyadic; try assumption; [ | apply (mant_ok_small _ 53); lia].
      apply eq_int_dyadic; try assumption; try lia;
        try (apply (mant_ok_small _ 53); lia).
    + split; reflexivity.
Qed.

Lemma updates_Forall_bounds (P : Rectangle.t -> Prop) (k : nat) (s : Simulation.t) :
  (forall r, P r -> P (Simulation.update_rect (Simulation.width s) (Simulation.height s) r)) ->
  Forall P (Simulation.rectangles s) ->
  Forall P (Simulation.rectangles (Simulation.updates k s)).
Proof.
  revert s. induction k as [ | k IH]; intros s Hstep Hs; cbn [Simulation.updates].
  - exact Hs.
  - apply IH.
    + exact Hstep.
    + unfold Simulation.update. cbn [Simulation.rectangles].
      apply Forall_map. eapply Forall_impl; [ | exact Hs]. intros r. apply Hstep.
Qed.

Lemma run_good (W H n seed : Z) (k : nat) :
  80 <= W < 2 ^ 22 -> 80 <= H < 2 ^ 22 ->
  Forall (Simulation.good_rect W H)
    (Simulation.rectangles (Simulation.updates k (Simulation.init W H n seed))).
Proof.
  intros HW HH. apply updates_Forall_bounds.
  - cbn [Simulation.init Simulation.width Simulation.height]. intros r Hr.
    apply update_rect_good; try assumption; lia.
  - apply init_loop_good; try assumption. constructor.
Qed.

Lemma run_frames_spec (k : nat) (sim : Simulation.t) :
  Benchmark.run_frames k sim
  = (map (fun i => Simulation.get_bounding_boxes (Simulation.updates (S i) sim)) (seq 0 k),
     Simulation.updates k sim).
Proof.
  revert sim. induction k as [ | k IH]; intros sim; [reflexivity | ].
  cbn [Benchmark.run_frames]. rewrite IH. cbn [seq map Simulation.updates].
  f_equal. f_equal. rewrite <- seq_shift, map_map. reflexivity.
Qed.

Lemma updates_add (a b : nat) (s : Simulation.t) :
  Simulation.updates (a + b) s = Simulation.updates b (Simulation.updates a s).
Proof.
  revert s. induction a as [ | a IH]; intros s; cbn [Nat.add Simulation.updates]; [reflexivity | apply IH].
Qed.

Lemma updates_length (k : nat) (s : Simulation.t) :
  length (Simulation.rectangles (Simulation.updates k s)) = length (Simulation.rectangles s).
Proof.
  revert s. induction k as [ | k IH]; intros s; cbn [Simulation.updates]; [reflexivity | ].
  rewrite IH. unfold Simulation.update. cbn [Simulation.rectangles]. apply length_map.
Qed.

Lemma init_length (W H n seed : Z) :
  length (Simulation.rectangles (Simulation.init W H n seed)) = Z.to_nat n.
Proof. rewrite init_spec, length_map, length_seq. reflexivity. Qed.

Lemma contained_inside (W H : Z) (r : Rectangle.t) :
  Simulation.contained W H r = Benchmark.inside W H (Simulation.bounding_box r).
Proof. reflexivity. Qed.

Lemma shr_1_m (mrs : shr_record) :
  0 <= shr_m mrs -> shr_m (shr_1 mrs) = shr_m mrs / 2.
Proof.
  destruct mrs as [m r s]. cbn [shr_m]. intros H.
  destruct m as [ | [p | p | ] | p]; try lia; cbn [shr_1 shr_m].
  - reflexivity.
  - rewrite Pos2Z.inj_xI. apply Z.div_unique with (r := 1); lia.
  - rewrite Pos2Z.inj_xO. apply Z.div_unique with (r := 0); lia.
  - reflexivity.
Qed.

Lemma iter_shr_m (p : positive) (mrs : shr_record) :
  0 <= shr_m mrs ->
  shr_m (Pos.iter shr_1 mrs p) = shr_m mrs / 2 ^ Zpos p.
Proof.
  intros H. induction p as [ | p IH] using Pos.peano_ind.
  - cbn [Pos.iter]. rewrite shr_1_m by assumption. reflexivity.
  - rewrite Pos.iter_succ. rewrite shr_1_m.
    + rewrite IH, Pos2Z.inj_succ, Z.pow_succ_r by lia.
      rewrite Z.div_div by (try apply Z.pow_pos_nonneg; lia). f_equal. lia.
    + rewrite IH. apply Z.div_pos; [assumption | apply Z.pow_pos_nonneg; lia].
Qed.

Lemma shr_m_div (mrs : shr_record) (e n : Z) :
  0 <= shr_m mrs -> 0 <= n ->
  shr_m (fst (shr mrs e n)) = shr_m mrs / 2 ^ n
  /\ snd (shr mrs e n) = e + n.
Proof.
  intros H Hn. destruct n as [ | p | p]; try lia; cbn [shr fst snd].
  - rewrite Z.div_1_r. split; [reflexivity | lia].
  - rewrite iter_pos_eq. split; [now apply iter_shr_m | reflexivity].
Qed.

Lemma shr_fexp_long (q : positive) (e : Z) (l : location) :
  53 <= Zpos (digits2_pos q) -> -1074 <= e ->
  2 ^ 52 <= shr_m (fst (shr_fexp F64.prec F64.emax (Zpos q) e l)) < 2 ^ 53
  /\ -1074 <= snd (shr_fexp F64.prec F64.emax (Zpos q) e l).
Proof.
  intros Hd He. unfold shr_fexp. cbn [Zdigits2].
  set (d := Zpos (digits2_pos q)) in *.
  assert (Hs : fexp F64.prec F64.emax (d + e) - e = d - 53).
  { unfold fexp, emin, F64.prec, F64.emax. lia. }
  rewrite Hs.
  destruct (shr_m_div (shr_record_of_loc (Zpos q) l) e (d - 53)) as [Em Ee];
    [rewrite shr_record_of_loc_m; lia | lia | ].
  rewrite Em, Ee, shr_record_of_loc_m.
  pose proof (digits2_pos_bounds q) as [Bl Bu]. fold d in Bl, Bu.
  assert (Hp : 0 < 2 ^ (d - 53)) by (apply Z.pow_pos_nonneg; lia).
  assert (E1 : 2 ^ (d - 1) = 2 ^ 52 * 2 ^ (d - 53)).
  { rewrite <- Z.pow_add_r by lia. f_equal. lia. }
  assert (E2 : 2 ^ d = 2 ^ 53 * 2 ^ (d - 53)).
  { rewrite <- Z.pow_add_r by lia. f_equal. lia. }
  split; [split | lia].
  - apply Z.div_le_lower_bound; lia.
  - apply Z.div_lt_upper_bound; lia.
Qed.

Lemma round_aux_not_zero (s : bool) (q : positive) (e : Z) (l : location) :
  53 <= Zpos (digits2_pos q) -> -1074 <= e ->
  Benchmark.is_zero (binary_round_aux F64.prec F64.emax s (Zpos q) e l) = false.
Proof.
  intros Hd He. unfold binary_round_aux.
  destruct (shr_fexp_long q e l Hd He) as [[B1 B1'] B2].
  destruct (shr_fexp F64.prec F64.emax (Zpos q) e l) as [mrs' e']. cbn [fst snd] in *.
  set (m1 := round_nearest_even (shr_m mrs') (loc_of_shr_record mrs')).
  assert (Hm1 : 2 ^ 52 <= m1).
  { subst m1. destruct (loc_of_shr_record mrs') as [ | [ | | ]]; cbn [round_nearest_even]; try lia.
    destruct (Z.even (shr_m mrs')); lia. }
  assert (P52 : 0 < 2 ^ 52) by reflexivity.
  destruct m1 as [ | p1 | p1] eqn:E1; try lia.
  assert (Hd1 : 53 <= Zpos (digits2_pos p1)).
  { pose proof (digits_ge p1 52 Hm1). lia. }
  destruct (shr_fexp_long p1 e' loc_Exact Hd1 B2) as [[C1 _] _].
  destruct (shr_fexp F64.prec F64.emax (Zpos p1) e' loc_Exact) as [mrs'' e'']. cbn [fst] in C1.
  destruct (shr_m mrs'') as [ | p2 | p2]; try lia.
  destruct (e'' <=? F64.emax - F64.prec); reflexivity.
Qed.

Lemma view_exponent (m e : Z) (s : bool) (M : positive) (E : Z) :
  m <> 0 -> E <= e -> cond_Zopp s (Zpos M) = m * 2 ^ (e - E) ->
  Zpos (digits2_pos M) = 53 -> e - E <= 52.
Proof.
  intros N L V D.
  pose proof (digits2_pos_bounds M) as [_ B]. rewrite D in B.
  destruct (Z_le_gt_dec (e - E) 52) as [ | Hgt]; [assumption | exfalso].
  assert (2 ^ 53 <= 2 ^ (e - E)) by (apply Z.pow_le_mono_r; lia).
  assert (Z.abs (cond_Zopp s (Zpos M)) = Zpos M) by (destruct s; cbn; lia).
  assert (Z.abs (m * 2 ^ (e - E)) = Z.abs m * 2 ^ (e - E)).
  { rewrite Z.abs_mul. f_equal. apply Z.abs_eq. lia. }
  assert (1 <= Z.abs m) by lia.
  assert (2 ^ 53 <= Z.abs m * 2 ^ (e - E)) by nia.
  lia.
Qed.

Lemma div_not_zero (m1 m2 : Z) :
  F64.mant_ok m1 -> F64.mant_ok m2 -> m1 <> 0 -> m2 <> 0 ->
  Benchmark.is_zero (F64.div (F64.of_int m1) (F64.of_int m2)) = false.
Proof.
  intros H1 H2 N1 N2. rewrite !of_int_dyadic.
  assert (E0 : F64.exp_ok 0) by (apply exp_ok_small; lia).
  pose proof (dyadic_canon m1 0 H1 E0) as V1.
  pose proof (dyadic_canon m2 0 H2 E0) as V2.
  destruct V1 as [ | s1 M1 E1 _ L1 V1 D1 _ R1]; [contradiction | ].
  destruct V2 as [ | s2 M2 E2 _ L2 V2 D2 _ R2]; [contradiction | ].
  pose proof (view_exponent m1 0 s1 M1 E1 N1 L1 V1 D1) as X1.
  pose proof (view_exponent m2 0 s2 M2 E2 N2 L2 V2 D2) as X2.
  unfold F64.div, SFdiv, SFdiv_core_binary. cbn [Zdigits2]. rewrite D1, D2.
  assert (Hf : Z.min (fexp F64.prec F64.emax (53 + E1 - (53 + E2))) (E1 - E2) = E1 - E2 - 53).
  { unfold fexp, emin, F64.prec, F64.emax. lia. }
  rewrite Hf. replace (E1 - E2 - (E1 - E2 - 53)) with 53 by lia.
  rewrite Z.shiftl_mul_pow2 by lia.
  pose proof (digits2_pos_bounds M1) as [B1 _]. rewrite D1 in B1.
  pose proof (digits2_pos_bounds M2) as [_ B2]. rewrite D2 in B2.
  assert (Hq : 2 ^ 52 <= Zpos M1 * 2 ^ 53 / Zpos M2).
  { apply Z.div_le_lower_bound; [lia | ].
    change (53 - 1) with 52 in B1. pose proof pow2_53. nia. }
  unfold Z.div in Hq.
  destruct (Z.div_eucl (Zpos M1 * 2 ^ 53) (Zpos M2)) as [q r]. cbn [fst] in Hq.
  assert (P52 : 0 < 2 ^ 52) by reflexivity.
  destruct q as [ | q | q]; try lia.
  apply round_aux_not_zero; [ | lia].
  pose proof (digits_ge q 52 Hq). lia.
Qed.

Lemma init_range (seed : Z) : 0 <= SimpleRNG.state (SimpleRNG.init seed) < 2 ^ 32.
Proof. unfold SimpleRNG.init. cbn [SimpleRNG.state]. rewrite land_mask. apply Z.mod_pos_bound. lia. Qed.

Lemma after_range (k : nat) (seed : Z) :
  0 <= SimpleRNG.state (SimpleRNG.after k (SimpleRNG.init seed)) < 2 ^ 32.
Proof. apply after_state_range, init_range. Qed.

Lemma return_after (r : SimpleRNG.t) (k : nat) :
  0 <= SimpleRNG.state r < 2 ^ 32 ->
  SimpleRNG.state (SimpleRNG.after k r) = SimpleRNG.state r <-> (2 ^ 32 | Z.of_nat k).
Proof.
  intros Hr. rewrite after_closed_form by assumption. now apply return_iff.
Qed.

Lemma next_inj (r1 r2 : SimpleRNG.t) :
  0 <= SimpleRNG.state r1 < 2 ^ 32 -> 0 <= SimpleRNG.state r2 < 2 ^ 32 ->
  fst (SimpleRNG.next r1) = fst (SimpleRNG.next r2) ->
  SimpleRNG.state r1 = SimpleRNG.state r2.
Proof.
  intros H1 H2 E. destruct r1 as [s1], r2 as [s2]. cbn [SimpleRNG.state] in *.
  rewrite <- (prev_next s1 H1), <- (prev_next s2 H2). now rewrite E.
Qed.

Lemma dyadic_inj (m1 m2 e : Z) :
  F64.mant_ok m1 -> F64.mant_ok m2 -> F64.exp_ok e -> e <= 0 ->
  F64.dyadic m1 e = F64.dyadic m2 e -> m1 = m2.
Proof.
  intros H1 H2 He Hle E.
  destruct (to_Q_dyadic m1 e H1 He Hle) as (q1 & Q1 & V1).
  destruct (to_Q_dyadic m2 e H2 He Hle) as (q2 & Q2 & V2).
  rewrite E, Q2 in Q1. injection Q1 as ->.
  rewrite V1 in V2. unfold Qeq in V2. cbn [Qnum Qden] in V2. nia.
Qed.

(** ** The statements *)

(** X1.  On the 32-bit states, [next] is a bijection: two states with the
    same next value are the same state, and every 32-bit value is the next
    value of some state. *)
Theorem next_bijective (r1 r2 : SimpleRNG.t) (n : Z) :
  0 <= SimpleRNG.state r1 < 2 ^ 32 -> 0 <= SimpleRNG.state r2 < 2 ^ 32 ->
  fst (SimpleRNG.next r1) = fst (SimpleRNG.next r2) ->
  0 <= n < 2 ^ 32 ->
  SimpleRNG.state r1 = SimpleRNG.state r2
  /\ exists s, 0 <= s < 2 ^ 32 /\ fst (SimpleRNG.next (SimpleRNG.mk s)) = n.
Proof.
  intros H1 H2 E Hn. split; [now apply next_inj | ].
  exists (lcg_prev n). split; [ | now apply next_prev].
  unfold lcg_prev. apply Z.mod_pos_bound. lia.
Qed.

(** The state of [SimpleRNG(42)] and the value 7. *)
Lemma next_bijective_witness :
  0 <= SimpleRNG.state (SimpleRNG.init 42) < 2 ^ 32
  /\ fst (SimpleRNG.next (SimpleRNG.init 42)) = fst (SimpleRNG.next (SimpleRNG.init 42))
  /\ 0 <= 7 < 2 ^ 32
  /\ SimpleRNG.state (SimpleRNG.init 42) = SimpleRNG.state (SimpleRNG.init 42)
  /\ exists s, 0 <= s < 2 ^ 32 /\ fst (SimpleRNG.next (SimpleRNG.mk s)) = 7.
Proof.
  split; [cbn; lia | split; [reflexivity | split; [lia | ] ] ].
  apply (next_bijective (SimpleRNG.init 42) (SimpleRNG.init 42) 7);
    try reflexivity; cbn; lia.
Defined.

(** X2.  [SimpleRNG(seed)] has period exactly [2^32]: its states after
    [i] and after [j] calls of [next] are equal exactly when [j - i] is a
    multiple of [2^32].  So within any [2^32] consecutive calls no value
    is returned twice. *)
Theorem rng_period (seed : Z) (i j : nat) :
  SimpleRNG.state (SimpleRNG.after i (SimpleRNG.init seed))
  = SimpleRNG.state (SimpleRNG.after j (SimpleRNG.init seed))
  <-> (2 ^ 32 | Z.of_nat j - Z.of_nat i).
Proof.
  assert (G : forall a b : nat,
            SimpleRNG.state (SimpleRNG.after a (SimpleRNG.init seed))
            = SimpleRNG.state (SimpleRNG.after (a + b) (SimpleRNG.init seed))
            <-> (2 ^ 32 | Z.of_nat b)).
  { intros a b. rewrite after_add.
    rewrite <- (return_after (SimpleRNG.after a (SimpleRNG.init seed)) b) by apply after_range.
    split; intros E; symmetry; exact E. }
  destruct (Nat.le_ge_cases i j) as [L | L].
  - replace j with (i + (j - i))%nat at 1 by lia. rewrite G.
    replace (Z.of_nat (j - i)) with (Z.of_nat j - Z.of_nat i) by lia. reflexivity.
  - replace i with (j + (i - j))%nat at 1 by lia.
    split; intros E.
    + symmetry in E. apply G in E. apply Z.divide_opp_r in E.
      replace (Z.of_nat j - Z.of_nat i) with (- Z.of_nat (i - j)) by lia. exact E.
    + symmetry. apply G. apply Z.divide_opp_r.
      replace (- Z.of_nat (i - j)) with (Z.of_nat j - Z.of_nat i) by lia. exact E.
Qed.

(** X3.  [random()] loses nothing of the state: two generators in
    different 32-bit states return different floats. *)
Theorem random_injective (r1 r2 : SimpleRNG.t) :
  0 <= SimpleRNG.state r1 < 2 ^ 32 -> 0 <= SimpleRNG.state r2 < 2 ^ 32 ->
  fst (SimpleRNG.random r1) = fst (SimpleRNG.random r2) ->
  SimpleRNG.state r1 = SimpleRNG.state r2.
Proof.
  intros H1 H2 E. rewrite !random_dyadic in E.
  pose proof (next_range r1) as R1. pose proof (next_range r2) as R2.
  apply dyadic_inj in E; try (apply exp_ok_small; lia); try lia;
    try (apply (mant_ok_small _ 32); lia).
  now apply next_inj.
Qed.

(** Two instances of [SimpleRNG(42)]. *)
Lemma random_injective_witness :
  0 <= SimpleRNG.state (SimpleRNG.init 42) < 2 ^ 32
  /\ fst (SimpleRNG.random (SimpleRNG.init 42)) = fst (SimpleRNG.random (SimpleRNG.init 42))
  /\ SimpleRNG.state (SimpleRNG.init 42) = SimpleRNG.state (SimpleRNG.init 42).
Proof.
  split; [cbn; lia | split; [reflexivity | ] ].
  apply (random_injective (SimpleRNG.init 42) (SimpleRNG.init 42)); try reflexivity; cbn; lia.
Defined.

(** X4.  For bounds [0 < width, height <= 2^21], every rectangle that
    [__init__] creates has its centre inside the bounds ([0 <= x < width],
    [0 <= y < height]), [20 <= width, height < 80] and
    [-5 <= vx, vy < 5]: the upper ends are never reached. *)
Theorem drawn_fields_in_range (W H n seed : Z) :
  0 < W <= 2 ^ 21 -> 0 < H <= 2 ^ 21 ->
  Forall (fun r => drawn_in_range W H r = true)
    (Simulation.rectangles (Simulation.init W H n seed)).
Proof.
  intros HW HH. apply init_Forall. intros i. now apply spec_rectangle_in_range.
Qed.

(** The benchmark's simulation of ten boxes. *)
Lemma drawn_fields_in_range_witness :
  0 < 1920 <= 2 ^ 21 /\ 0 < 1080 <= 2 ^ 21
  /\ Forall (fun r => drawn_in_range 1920 1080 r = true)
       (Simulation.rectangles (Simulation.init 1920 1080 10 42)).
Proof.
  assert (A : 0 < 1920 <= 2 ^ 21) by (cbn; lia).
  assert (B : 0 < 1080 <= 2 ^ 21) by (cbn; lia).
  split; [exact A | split; [exact B | ] ].
  apply (drawn_fields_in_range 1920 1080 10 42 A B).
Defined.

(** X5.  For all bounds, counts and seeds, and after any number of
    [update] calls, every rectangle still has [20 <= width, height < 80]
    and [-5 <= vx, vy <= 5]; so none of these four fields is ever a NaN
    or an infinity. *)
Theorem sizes_and_speeds_kept (W H n seed : Z) (k : nat) :
  Forall (fun r => sizes_and_speeds_ok r = true)
    (Simulation.rectangles (Simulation.updates k (Simulation.init W H n seed))).
Proof.
  apply updates_Forall.
  - intros W' H' r. apply update_rect_keeps.
  - apply init_Forall. intros i. apply spec_rectangle_keeps.
Qed.

(** X6.  The identifiers [get_ground_truth_ids()] returns are pairwise
    distinct, at construction and after any number of [update] calls. *)
Theorem ids_distinct (W H n seed : Z) (k : nat) :
  NoDup (Simulation.get_ground_truth_ids (Simulation.updates k (Simulation.init W H n seed))).
Proof.
  rewrite updates_ids, init_ids. apply NoDup_map_inj; [ | apply seq_NoDup].
  intros a b. apply Nat2Z.inj.
Qed.

(** X7.  Seeds that differ modulo [2^32] give different simulations:
    for a width [0 < width <= 2^21] and at least one rectangle, the first
    rectangle already has a different [x]. *)
Theorem seeds_differ (W H n seed1 seed2 : Z) :
  0 < W <= 2 ^ 21 -> 1 <= n ->
  seed1 mod 2 ^ 32 <> seed2 mod 2 ^ 32 ->
  Simulation.rectangles (Simulation.init W H n seed1)
  <> Simulation.rectangles (Simulation.init W H n seed2).
Proof.
  intros HW Hn Hs E. apply Hs. rewrite !init_spec in E.
  destruct (Z.to_nat n) as [ | k] eqn:Ek; [lia | ].
  cbn [seq map] in E.
  apply (f_equal (fun l => match l with
                           | r :: _ => Rectangle.x r
                           | [] => F64.of_int 0
                           end)) in E.
  cbv beta iota in E.
  cbn [Simulation.spec_rectangle Rectangle.x Nat.mul Nat.add] in E.
  unfold Simulation.draw in E. cbn [SimpleRNG.after] in E.
  rewrite !random_dyadic in E.
  pose proof (next_range (SimpleRNG.init seed1)) as R1.
  pose proof (next_range (SimpleRNG.init seed2)) as R2.
  rewrite !place_draw_value in E by lia.
  pose proof pow2_32. pose proof pow2_53. assert (2 ^ 21 = 2097152) by reflexivity.
  apply dyadic_inj in E; try (apply exp_ok_small; lia); try lia;
    try (apply (mant_ok_small _ 53); nia).
  assert (E' : fst (SimpleRNG.next (SimpleRNG.init seed1))
               = fst (SimpleRNG.next (SimpleRNG.init seed2))) by nia.
  apply next_inj in E'; try apply init_range.
  unfold SimpleRNG.init in E'. cbn [SimpleRNG.state] in E'. now rewrite !land_mask in E'.
Qed.

(** Seeds 42 and 43 on the benchmark's bounds. *)
Lemma seeds_differ_witness :
  0 < 1920 <= 2 ^ 21 /\ 1 <= 10 /\ 42 mod 2 ^ 32 <> 43 mod 2 ^ 32
  /\ Simulation.rectangles (Simulation.init 1920 1080 10 42)
     <> Simulation.rectangles (Simulation.init 1920 1080 10 43).
Proof.
  assert (A : 0 < 1920 <= 2 ^ 21) by (cbn; lia).
  assert (B : 42 mod 2 ^ 32 <> 43 mod 2 ^ 32) by (cbn; lia).
  split; [exact A | split; [lia | split; [exact B | ] ] ].
  apply (seeds_differ 1920 1080 10 42 43); [exact A | lia | exact B].
Defined.

(** X8.  In a simulation constructed with bounds [80 <= width < 2^22] and
    [80 <= height < 2^22], at any frame and for every rectangle, [update]
    does one of three things on each axis.  If the moved box crosses the
    low wall, the centre becomes the half extent, the velocity is negated
    and the low edge is exactly 0.  Otherwise, if it crosses the high wall,
    the centre becomes the bound minus the half extent, the velocity is
    negated and the high edge is exactly the bound.  Otherwise the centre
    is the moved centre and the velocity is kept. *)
Theorem wall_hit_exact (W H n seed : Z) (k i : nat) (r : Rectangle.t) :
  80 <= W < 2 ^ 22 -> 80 <= H < 2 ^ 22 ->
  nth_error (Simulation.rectangles (Simulation.updates k (Simulation.init W H n seed))) i
    = Some r ->
  let r' := Simulation.update_rect W H r in
  let half_w := F64.div (Rectangle.width r) (F64.of_int 2) in
  let half_h := F64.div (Rectangle.height r) (F64.of_int 2) in
  let x1 := F64.add (Rectangle.x r) (Rectangle.vx r) in
  let y1 := F64.add (Rectangle.y r) (Rectangle.vy r) in
  (if F64.lt_int (F64.sub x1 half_w) 0
   then Rectangle.x r' = half_w /\ Rectangle.vx r' = F64.neg (Rectangle.vx r)
        /\ F64.eq_int (F64.sub (Rectangle.x r') half_w) 0 = true
   else if F64.gt_int (F64.add x1 half_w) W
        then Rectangle.x r' = F64.sub (F64.of_int W) half_w
             /\ Rectangle.vx r' = F64.neg (Rectangle.vx r)
             /\ F64.eq_int (F64.add (Rectangle.x r') half_w) W = true
        else Rectangle.x r' = x1 /\ Rectangle.vx r' = Rectangle.vx r)
  /\ (if F64.lt_int (F64.sub y1 half_h) 0
      then Rectangle.y r' = half_h /\ Rectangle.vy r' = F64.neg (Rectangle.vy r)
           /\ F64.eq_int (F64.sub (Rectangle.y r') half_h) 0 = true
      else if F64.gt_int (F64.add y1 half_h) H
           then Rectangle.y r' = F64.sub (F64.of_int H) half_h
                /\ Rectangle.vy r' = F64.neg (Rectangle.vy r)
                /\ F64.eq_int (F64.add (Rectangle.y r') half_h) H = true
           else Rectangle.y r' = y1 /\ Rectangle.vy r' = Rectangle.vy r).
Proof.
  intros HW HH Hi. cbv zeta.
  pose proof (run_good W H n seed k HW HH) as G.
  rewrite Forall_forall in G. apply nth_error_In in Hi. specialize (G r Hi).
  destruct G as [Gx Gy].
  pose proof (bounce_exact W _ _ _ ltac:(lia) Gx) as Bx.
  pose proof (bounce_exact H _ _ _ ltac:(lia) Gy) as By.
  cbv zeta in Bx, By.
  rewrite update_rect_bounce.
  destruct (Simulation.bounce (F64.add (Rectangle.x r) (Rectangle.vx r)) _ _ W) as [x2 vx2].
  destruct (Simulation.bounce (F64.add (Rectangle.y r) (Rectangle.vy r)) _ _ H) as [y2 vy2].
  cbn [fst snd] in Bx, By.
  cbn [Rectangle.x Rectangle.y Rectangle.vx Rectangle.vy].
  split; assumption.
Qed.

(** The first box of the benchmark's simulation, in its first frame. *)
Lemma wall_hit_exact_witness :
  80 <= 1920 < 2 ^ 22 /\ 80 <= 1080 < 2 ^ 22
  /\ nth_error (Simulation.rectangles
                  (Simulation.updates 0 (Simulation.init 1920 1080 10 42))) 0
     = Some (Simulation.spec_rectangle 1920 1080 42 0)
  /\ let r := Simulation.spec_rectangle 1920 1080 42 0 in
     let r' := Simulation.update_rect 1920 1080 r in
     let half_w := F64.div (Rectangle.width r) (F64.of_int 2) in
     let half_h := F64.div (Rectangle.height r) (F64.of_int 2) in
     let x1 := F64.add (Rectangle.x r) (Rectangle.vx r) in
     let y1 := F64.add (Rectangle.y r) (Rectangle.vy r) in
     (if F64.lt_int (F64.sub x1 half_w) 0
      then Rectangle.x r' = half_w /\ Rectangle.vx r' = F64.neg (Rectangle.vx r)
           /\ F64.eq_int (F64.sub (Rectangle.x r') half_w) 0 = true
      else if F64.gt_int (F64.add x1 half_w) 1920
           then Rectangle.x r' = F64.sub (F64.of_int 1920) half_w
                /\ Rectangle.vx r' = F64.neg (Rectangle.vx r)
                /\ F64.eq_int (F64.add (Rectangle.x r') half_w) 1920 = true
           else Rectangle.x r' = x1 /\ Rectangle.vx r' = Rectangle.vx r)
     /\ (if F64.lt_int (F64.sub y1 half_h) 0
         then Rectangle.y r' = half_h /\ Rectangle.vy r' = F64.neg (Rectangle.vy r)
              /\ F64.eq_int (F64.sub (Rectangle.y r') half_h) 0 = true
         else if F64.gt_int (F64.add y1 half_h) 1080
              then Rectangle.y r' = F64.sub (F64.of_int 1080) half_h
                   /\ Rectangle.vy r' = F64.neg (Rectangle.vy r)
                   /\ F64.eq_int (F64.add (Rectangle.y r') half_h) 1080 = true
              else Rectangle.y r' = y1 /\ Rectangle.vy r' = Rectangle.vy r).
Proof.
  assert (A : 80 <= 1920 < 2 ^ 22) by (cbn; lia).
  assert (B : 80 <= 1080 < 2 ^ 22) by (cbn; lia).
  assert (C : nth_error (Simulation.rectangles
                  (Simulation.updates 0 (Simulation.init 1920 1080 10 42))) 0
     = Some (Simulation.spec_rectangle 1920 1080 42 0)) by (vm_compute; reflexivity).
  split; [exact A | split; [exact B | split; [exact C | ] ] ].
  exact (wall_hit_exact 1920 1080 10 42 0 0 _ A B C).
Defined.

(** X9.  [run_benchmark] feeds the tracker ten warm-up frames and then
    [num_frames] measured frames (none for a negative count); the warm-up
    frame [i] holds the boxes after [1 + i] updates of
    [Simulation(1920, 1080, num_objects, 42)] and the measured frame [i]
    those after [11 + i] updates, so measuring starts from the state the
    warm-up leaves; and every frame holds [num_objects] boxes. *)
Theorem run_benchmark_frames (num_objects num_frames : Z) :
  let sim := Simulation.init 1920 1080 num_objects 42 in
  let frame i := Simulation.get_bounding_boxes (Simulation.updates i sim) in
  Benchmark.run_benchmark num_objects num_frames
  = (map (fun i => frame (1 + i)%nat) (seq 0 10),
     map (fun i => frame (11 + i)%nat) (seq 0 (Z.to_nat num_frames)))
  /\ Forall (fun boxes => length boxes = Z.to_nat num_objects)
       (fst (Benchmark.run_benchmark num_objects num_frames)
        ++ snd (Benchmark.run_benchmark num_objects num_frames)).
Proof.
  intros sim frame.
  assert (E : Benchmark.run_benchmark num_objects num_frames
              = (map (fun i => frame (1 + i)%nat) (seq 0 10),
                 map (fun i => frame (11 + i)%nat) (seq 0 (Z.to_nat num_frames)))).
  { unfold Benchmark.run_benchmark. fold sim. rewrite !run_frames_spec.
    reflexivity. }
  split; [exact E | ]. rewrite E. cbn [fst snd].
  apply Forall_app. split; apply Forall_map; apply Forall_forall; intros i _;
    subst frame sim; cbv beta; unfold Simulation.get_bounding_boxes;
    rewrite length_map, updates_length; apply init_length.
Qed.

(** X10.  Every box [run_benchmark] feeds to the tracker, warm-up
    included, lies inside the 1920 x 1080 frame, for every object count
    and every number of frames. *)
Theorem run_benchmark_boxes_inside (num_objects num_frames : Z) :
  Forall (Forall (fun b => Benchmark.inside 1920 1080 b = true))
    (fst (Benchmark.run_benchmark num_objects num_frames)
     ++ snd (Benchmark.run_benchmark num_objects num_frames)).
Proof.
  assert (P22 : 2 ^ 22 = 4194304) by reflexivity.
  assert (F : forall k, Forall (fun b => Benchmark.inside 1920 1080 b = true)
                (Simulation.get_bounding_boxes
                   (Simulation.updates (S k) (Simulation.init 1920 1080 num_objects 42)))).
  { intros k. unfold Simulation.get_bounding_boxes. apply Forall_map.
    pose proof (updates_good k (Simulation.init 1920 1080 num_objects 42)) as G.
    cbn [Simulation.init Simulation.width Simulation.height Simulation.rectangles] in G.
    eapply Forall_impl; [ | apply G; try lia].
    - cbv beta. intros r [_ Hc]. rewrite <- contained_inside. exact Hc.
    - apply init_loop_good; try lia. constructor. }
  unfold Benchmark.run_benchmark. rewrite !run_frames_spec. cbn [fst snd].
  apply Forall_app. split; apply Forall_map; apply Forall_forall; intros i _.
  - apply F.
  - rewrite <- updates_add. replace (10 + S i)%nat with (S (10 + i)) by lia. apply F.
Qed.

(** X11.  The metrics at the end of [run_benchmark] raise
    [ZeroDivisionError] exactly when [num_frames] is 0 or the measured
    total [total_time_bench] is 0 (both below [2^53] in absolute value);
    in particular a run of no measured frame, whose total is 0, ends in
    the error. *)
Theorem metrics_zero_division (num_frames total_time_bench : Z) :
  Z.abs num_frames < 2 ^ 53 -> Z.abs total_time_bench < 2 ^ 53 ->
  Benchmark.metrics num_frames total_time_bench = None
  <-> num_frames = 0 \/ total_time_bench = 0.
Proof.
  intros Hn Ht. unfold Benchmark.metrics, Benchmark.int_truediv, Benchmark.int_div_float, Benchmark.float_div_int.
  cbn [Z.eqb]. unfold F64.truediv.
  destruct (Z.eq_dec total_time_bench 0) as [-> | Nt].
  - cbn. split; [now right | reflexivity].
  - assert (M9 : F64.mant_ok 1000000000) by (unfold F64.mant_ok; pose proof pow2_53; lia).
    rewrite (div_not_zero total_time_bench 1000000000 Ht M9 Nt ltac:(lia)).
    destruct (Z.eqb_spec num_frames 0) as [-> | Nn].
    + split; [now left | reflexivity].
    + split; [discriminate | intros [? | ?]; contradiction].
Qed.

(** A thousand frames in no measurable time. *)
Lemma metrics_zero_division_witness :
  Z.abs 1000 < 2 ^ 53 /\ Z.abs 0 < 2 ^ 53
  /\ (Benchmark.metrics 1000 0 = None <-> 1000 = 0 \/ 0 = 0).
Proof.
  assert (A : Z.abs 1000 < 2 ^ 53) by (cbn; lia).
  assert (B : Z.abs 0 < 2 ^ 53) by (cbn; lia).
  split; [exact A | split; [exact B | ] ].
  apply (metrics_zero_division 1000 0 A B).
Defined.

Lemma updates_rectangles (k : nat) (s : Simulation.t) :
  Simulation.rectangles (Simulation.updates k s)
  = map (Nat.iter k (Simulation.update_rect (Simulation.width s) (Simulation.height s)))
      (Simulation.rectangles s).
Proof.
  revert s. induction k as [ | k IH]; intros s; cbn [Simulation.updates].
  - cbn [Nat.iter]. now rewrite map_id.
  - rewrite IH. unfold Simulation.update.
    cbn [Simulation.rectangles Simulation.width Simulation.height].
    rewrite map_map. apply map_ext. intros r.
    rewrite Nat.iter_succ_r. reflexivity.
Qed.

Lemma firstn_seq_le (n m a : nat) : (n <= m)%nat -> firstn n (seq a m) = seq a n.
Proof.
  revert m a. induction n as [ | n IH]; intros m a Hn; [reflexivity | ].
  destruct m as [ | m]; [lia | ]. cbn [seq firstn]. f_equal. apply IH. lia.
Qed.

(** X12.  Rectangles do not interact, and a rectangle does not depend on
    the ones created after it: for [0 <= n <= m], the first [n] rectangles
    of a simulation of [m] rectangles are, at every frame, the rectangles
    of the simulation of [n] rectangles with the same bounds and seed. *)
Theorem first_rectangles_independent (W H n m seed : Z) (k : nat) :
  0 <= n <= m ->
  firstn (Z.to_nat n)
    (Simulation.rectangles (Simulation.updates k (Simulation.init W H m seed)))
  = Simulation.rectangles (Simulation.updates k (Simulation.init W H n seed)).
Proof.
  intros Hn. rewrite !updates_rectangles.
  cbn [Simulation.init Simulation.width Simulation.height].
  fold (Simulation.init W H m seed). fold (Simulation.init W H n seed).
  rewrite !init_spec, !firstn_map, firstn_seq_le by lia. reflexivity.
Qed.

(** The benchmark's runs of 10 and of 50 objects, after three frames. *)
Lemma first_rectangles_independent_witness :
  0 <= 10 <= 50
  /\ firstn (Z.to_nat 10)
       (Simulation.rectangles (Simulation.updates 3 (Simulation.init 1920 1080 50 42)))
     = Simulation.rectangles (Simulation.updates 3 (Simulation.init 1920 1080 10 42)).
Proof.
  split; [lia | ]. apply (first_rectangles_independent 1920 1080 10 50 42 3). lia.
Defined.
